(** * projstat.js: link resolution, payload normalisation, facets and filters

    A shallow embedding of [src/projstat.js] (the Google-Sheets status page)
    and the properties of it that the specification states.

    Conventions of the embedding.
    - A JavaScript string is a [string]: the sequence of its UTF-16 code
      units, here restricted to code units below 256 (one [ascii] each).
      Inside that range [trim], [toLowerCase] and the regular-expression
      classes [\s], [\d], [a-z] are modelled exactly as ECMAScript defines
      them.
    - Code that can [throw] returns a [result]; [try { .. } catch { }] is
      [catch].
    - What the browser provides (the URL parser, [JSON.parse], the locale's
      date formatting, percent-encoding, the properties every object
      inherits) is a [Host]; what the outside world answers (the network,
      the clock, the random generator) is a [World]. Both are arguments of
      the functions that use them. *)

From Stdlib Require Import Ascii NArith.
From stdpp Require Import base tactics option list gmap strings pretty sorting.

Local Open Scope stdpp_scope.

(** ** Exceptions *)

(** [throw new Error(message)] of the program itself, and the exceptions the
    host raises ([TypeError] of a failed [fetch], of a property read on
    [null] or of a call of a non-function; [SyntaxError] of [JSON.parse]). *)
Inductive exn : Type :=
  | Error (message : string)
  | TypeError
  | SyntaxError.

Inductive result (A : Type) : Type :=
  | Ok (a : A)
  | Throw (e : exn).
Arguments Ok {A} a.
Arguments Throw {A} e.

#[global] Instance result_ret : MRet result := λ A a, Ok a.

#[global] Instance result_bind : MBind result := λ A B k r,
  match r with
  | Ok a => k a
  | Throw e => Throw e
  end.

#[global] Instance result_fmap : FMap result := λ A B f r,
  match r with
  | Ok a => Ok (f a)
  | Throw e => Throw e
  end.

(** [try { body } catch { }]: the exception is dropped and control falls out
    of the statement with no value. *)
Definition catch {A} (body : result (option A)) : option A :=
  match body with
  | Ok o => o
  | Throw _ => None
  end.

(** [xs.map(f)] where [f] may throw: the first exception ends the loop. *)
Fixpoint mapM {A B} (f : A → result B) (xs : list A) : result (list B) :=
  match xs with
  | [] => Ok []
  | x :: xs' => y ← f x; ys ← mapM f xs'; Ok (y :: ys)
  end.

(** [xs.map((x, index) => f(index, x))], indices counted from [i]. *)
Fixpoint mapMi {A B} (f : nat → A → result B) (i : nat) (xs : list A)
  : result (list B) :=
  match xs with
  | [] => Ok []
  | x :: xs' => y ← f i x; ys ← mapMi f (S i) xs'; Ok (y :: ys)
  end.

(** [for (const x of xs) { const y = body(x); if (y) return y; }]: the
    first iteration that returns ends the loop. *)
Fixpoint forOf {A B} (body : A → option B) (xs : list A) : option B :=
  match xs with
  | [] => None
  | x :: xs' =>
      match body x with
      | Some y => Some y
      | None => forOf body xs'
      end
  end.

(** ** Strings *)

Module Js.

Definition code (c : ascii) : N := N_of_ascii c.

Definition between (lo hi : N) (c : ascii) : bool :=
  ((lo <=? code c) && (code c <=? hi))%N.

(** [\s], which is also what [trim] strips: TAB, LF, VT, FF, CR, SP and
    NBSP are the white space and line terminators below 256. *)
Definition isSpace (c : ascii) : bool :=
  between 9 13 c || (code c =? 32)%N || (code c =? 160)%N.

Definition isDigit (c : ascii) : bool := between 48 57 c.
Definition isLower (c : ascii) : bool := between 97 122 c.
Definition isUpper (c : ascii) : bool := between 65 90 c.

(** The class [[a-zA-Z0-9-_]]. *)
Definition isIdChar (c : ascii) : bool :=
  isLower c || isUpper c || isDigit c
  || (code c =? 45)%N || (code c =? 95)%N.

(** [toLowerCase] on one code unit: A-Z, and the Latin-1 capitals
    U+00C0..U+00DE without the multiplication sign U+00D7. *)
Definition lowerChar (c : ascii) : ascii :=
  if isUpper c || (between 192 222 c && negb (code c =? 215)%N)
  then ascii_of_N (code c + 32)
  else c.

Fixpoint map (f : ascii → ascii) (s : string) : string :=
  match s with
  | EmptyString => EmptyString
  | String c r => String (f c) (map f r)
  end.

Fixpoint forallb (p : ascii → bool) (s : string) : bool :=
  match s with
  | EmptyString => true
  | String c r => p c && forallb p r
  end.

Definition toLowerCase (s : string) : string := map lowerChar s.

Definition isEmpty (s : string) : bool :=
  match s with EmptyString => true | _ => false end.

Fixpoint trimStart (s : string) : string :=
  match s with
  | EmptyString => EmptyString
  | String c r => if isSpace c then trimStart r else s
  end.

Fixpoint trimEnd (s : string) : string :=
  match s with
  | EmptyString => EmptyString
  | String c r =>
      let r' := trimEnd r in
      if isSpace c && isEmpty r' then EmptyString else String c r'
  end.

Definition trim (s : string) : string := trimEnd (trimStart s).

(** The longest prefix of [s] made of characters of the class [p], and
    what follows it: a greedy [[p]*]. *)
Fixpoint span (p : ascii → bool) (s : string) : string * string :=
  match s with
  | EmptyString => (EmptyString, EmptyString)
  | String c r =>
      if p c then let '(a, b) := span p r in (String c a, b)
      else (EmptyString, s)
  end.

(** [s.startsWith(p)], returning the rest of [s] behind [p]. *)
Fixpoint stripPrefix (p s : string) : option string :=
  match p, s with
  | EmptyString, _ => Some s
  | String a p', String b s' =>
      if Ascii.eqb a b then stripPrefix p' s' else None
  | String _ _, EmptyString => None
  end.

Definition startsWith (p s : string) : bool :=
  match stripPrefix p s with Some _ => true | None => false end.

(** [s.includes(sub)]. *)
Fixpoint includes (s sub : string) : bool :=
  startsWith sub s
  || match s with
     | EmptyString => false
     | String _ r => includes r sub
     end.

(** [s.endsWith(suffix)]. *)
Fixpoint endsWith (s suffix : string) : bool :=
  String.eqb s suffix
  || match s with
     | EmptyString => false
     | String _ r => endsWith r suffix
     end.

(** [Number(digits)] for a string of decimal digits. *)
Definition digitValue (c : ascii) : N := (code c - 48)%N.

Fixpoint numberOfDigits (acc : N) (s : string) : N :=
  match s with
  | EmptyString => acc
  | String c r => numberOfDigits (10 * acc + digitValue c)%N r
  end.

(** [`${n}`] for a non-negative integer. *)
Definition ofNat (n : nat) : string := pretty n.

End Js.

(** ** Headers *)

(** [.replace(/[()]/g, " ")] *)
Definition replaceParens (c : ascii) : ascii :=
  if ((Js.code c =? 40) || (Js.code c =? 41))%N then " "%char else c.

(** [.replace(/[^a-z0-9\s]/g, " ")] *)
Definition replaceNonAlnum (c : ascii) : ascii :=
  if Js.isLower c || Js.isDigit c || Js.isSpace c then c else " "%char.

(** [.replace(/\s+/g, " ")]: every maximal run of white space becomes one
    space; [inRun] says that the previous character was white space. *)
Fixpoint collapseSpaces (inRun : bool) (s : string) : string :=
  match s with
  | EmptyString => EmptyString
  | String c r =>
      if Js.isSpace c
      then if inRun then collapseSpaces true r
           else String " "%char (collapseSpaces true r)
      else String c (collapseSpaces false r)
  end.

(** [normalizeHeader(value)] behind its [String(value ?? "")]: the callers
    that pass something else than a string convert it first. *)
Definition normalizeHeader (value : string) : string :=
  Js.trim
    (collapseSpaces false
       (Js.map replaceNonAlnum
          (Js.map replaceParens
             (Js.toLowerCase (Js.trim value))))).

(** ** CSV lines *)

Definition quote : ascii := "034"%char.
Definition comma : ascii := ","%char.

(** The loop of [parseCsvLine]: [values], [current] and [inQuotes] are its
    three variables, [line] is what is left of the line from index [i]. A
    doubled quote inside quotes consumes two characters ([i += 1] and the
    loop's own increment). *)
Fixpoint parseCsvLoop (values : list string) (current : string)
    (inQuotes : bool) (line : string) : list string :=
  match line with
  | EmptyString => values ++ [current]
  | String c rest =>
      if Ascii.eqb c quote then
        match inQuotes, rest with
        | true, String c' rest' =>
            if Ascii.eqb c' quote
            then parseCsvLoop values (current +:+ String quote "") true rest'
            else parseCsvLoop values current (negb inQuotes) rest
        | _, _ => parseCsvLoop values current (negb inQuotes) rest
        end
      else if Ascii.eqb c comma && negb inQuotes then
        parseCsvLoop (values ++ [current]) "" false rest
      else
        parseCsvLoop values (current +:+ String c "") inQuotes rest
  end.

Definition parseCsvLine (line : string) : list string :=
  parseCsvLoop [] "" false line.



(** ** JSON values *)

(** What [JSON.parse] returns. A number is carried by its [String(n)]
    rendering, which is all this program observes of a number besides its
    truthiness. An object lists its own properties in the order of
    [Object.keys]. [undefined] is not a JSON value: a value that may be
    [undefined] is an [option json]. *)
#[warnings="-register-all"]
Inductive json : Type :=
  | JNull
  | JBool (b : bool)
  | JNum (text : string)
  | JStr (s : string)
  | JArr (items : list json)
  | JObj (props : list (string * json)).

Fixpoint assoc {A} (name : string) (props : list (string * A)) : option A :=
  match props with
  | [] => None
  | (k, v) :: rest => if String.eqb k name then Some v else assoc name rest
  end.

(** [Boolean(v)] *)
Definition truthy (v : option json) : bool :=
  match v with
  | None | Some JNull => false
  | Some (JBool b) => b
  | Some (JNum text) => negb (String.eqb text "0" || String.eqb text "NaN")
  | Some (JStr s) => negb (Js.isEmpty s)
  | Some (JArr _) | Some (JObj _) => true
  end.

(** [String(v)]. An array joins its items with commas, [null] items as the
    empty string. A plain object is "[object Object]", unless it has an own
    property [toString]: that is no function, neither is any [valueOf] it
    may have, and the conversion throws. *)
Fixpoint toString (v : json) : result string :=
  match v with
  | JNull => Ok "null"
  | JBool b => Ok (if b then "true" else "false")
  | JNum text => Ok text
  | JStr s => Ok s
  | JArr items =>
      (fix join (first : bool) (xs : list json) : result string :=
         match xs with
         | [] => Ok ""
         | x :: xs' =>
             t ← match x with JNull => Ok "" | _ => toString x end;
             r ← join false xs';
             Ok ((if first then "" else ",") +:+ t +:+ r)
         end) true items
  | JObj props =>
      match assoc "toString" props with
      | Some _ => Throw TypeError
      | None => Ok "[object Object]"
      end
  end.

(** [String(v ?? "")] *)
Definition toStringOrEmpty (v : option json) : result string :=
  match v with
  | None | Some JNull => Ok ""
  | Some v' => toString v'
  end.

(** [v.name] for the names this program reads from a payload ([table],
    [cols], [rows], [c], [label], [type], [f], [v]). No prototype defines
    one of them, so the read is an own property of an object and
    [undefined] on every other value; on [null] it throws. *)
Definition getProp (v : json) (name : string) : result (option json) :=
  match v with
  | JNull => Throw TypeError
  | JObj props => Ok (assoc name props)
  | _ => Ok None
  end.

(** [v?.name], for the same names. *)
Definition optProp (v : option json) (name : string) : option json :=
  match v with
  | Some (JObj props) => assoc name props
  | _ => None
  end.

(** [v?.[index]]: an item of an array, the property named by the index of
    an object, a one-character string of a string. *)
Definition optIndex (v : option json) (index : nat) : option json :=
  match v with
  | Some (JArr items) => items !! index
  | Some (JObj props) => assoc (Js.ofNat index) props
  | Some (JStr s) => (λ c, JStr (String c "")) <$> String.get index s
  | _ => None
  end.

(** [(v ?? []).map(..)]: the array to iterate; anything else that is not
    nullish has no [map] method. *)
Definition arrayOrEmpty (v : option json) : result (list json) :=
  match v with
  | None | Some JNull => Ok []
  | Some (JArr items) => Ok items
  | Some _ => Throw TypeError
  end.

(** ** The host *)

(** A [URL] object, as far as the program reads it. *)
Record URL : Type := mkURL {
  hostname : string;
  pathname : string;
  searchParams : list (string * string);
  hash : string;
  href : string
}.

Record Host : Type := mkHost {
  (** [new URL(text)], [None] when it throws *)
  URL_new : string → option URL;
  (** [new URLSearchParams(text)] *)
  URLSearchParams_parse : string → list (string * string);
  (** [params.toString()] *)
  URLSearchParams_toString : list (string * string) → string;
  encodeURIComponent : string → string;
  JSON_parse : string → result json;
  (** [new Date(year, month, day).toLocaleDateString()] *)
  toLocaleDateString : N → N → N → string;
  (** [String(o[name])] when [name] is no own property of [o] and is
      inherited from a prototype ([constructor], [toString], ...) *)
  inheritedText : json → string → option string
}.

(** ** Tables *)

Record Column : Type := mkColumn {
  key : string;
  label : string;
  type : json
}.

Record Table : Type := mkTable {
  columns : list Column;
  rows : list (gmap string string)
}.

(** [`column ${index + 1}`] and [`Column ${index + 1}`] *)
Definition placeholderKey (index : nat) : string :=
  "column " +:+ Js.ofNat (index + 1).

Definition placeholderLabel (index : nat) : string :=
  "Column " +:+ Js.ofNat (index + 1).

(** [a || b] on strings *)
Definition orElse (a b : string) : string :=
  if Js.isEmpty a then b else a.

(** [normalizeHeader(header) || `column ${index + 1}`], the key that each
    of the three shapes gives to the column at [index]. *)
Definition headerKey (index : nat) (header : string) : string :=
  orElse (normalizeHeader header) (placeholderKey index).

(** [columns.forEach((column, index) => { mapped[column.key] = f(column,
    index); })], indices counted from [index]. *)
Fixpoint forEachColumn (f : Column → nat → result string) (index : nat)
    (cols : list Column) (mapped : gmap string string)
  : result (gmap string string) :=
  match cols with
  | [] => Ok mapped
  | column :: rest =>
      value ← f column index;
      forEachColumn f (S index) rest (<[key column := value]> mapped)
  end.

(** ** Typed cells *)

(** [/^Date\((\d+),(\d+),(\d+)/]: the three groups. Each [\d+] is greedy
    and is followed by a character that is no digit, so it takes the whole
    run of digits. *)
Definition matchDate (s : string) : option (string * string * string) :=
  rest ← Js.stripPrefix "Date(" s;
  let '(year, rest) := Js.span Js.isDigit rest in
  if Js.isEmpty year then None else
  rest ← Js.stripPrefix "," rest;
  let '(month, rest) := Js.span Js.isDigit rest in
  if Js.isEmpty month then None else
  rest ← Js.stripPrefix "," rest;
  let '(day, _) := Js.span Js.isDigit rest in
  if Js.isEmpty day then None else
  Some (year, month, day).

(** [typeof f === "string" && f.trim()], giving [f] when it holds. *)
Definition displayValue (f : option json) : option string :=
  match f with
  | Some (JStr f') => if Js.isEmpty (Js.trim f') then None else Some f'
  | _ => None
  end.

Definition formatCellValue (h : Host) (cell : option json) (columnType : json)
  : result string :=
  if negb (truthy cell) then Ok "" else
  match displayValue (optProp cell "f") with
  | Some f => Ok f
  | None =>
      match optProp cell "v" with
      | None | Some JNull => Ok ""
      | Some v =>
          match columnType, v with
          | JStr t, JStr s =>
              match (if String.eqb t "date" then matchDate s else None) with
              | Some (year, month, day) =>
                  Ok (toLocaleDateString h
                        (Js.numberOfDigits 0 year)
                        (Js.numberOfDigits 0 month)
                        (Js.numberOfDigits 0 day))
              | None => toString v
              end
          | _, _ => toString v
          end
      end
  end.

(** ** Typed-cell payloads *)

(** [String(column.label ?? "")], the text that [normalizeHeader] works on. *)
Definition columnHeader (column : json) : result string :=
  columnLabel ← getProp column "label";
  toStringOrEmpty columnLabel.

(** One iteration of the [cols.map((column, index) => ..)] of [mapPayload]. *)
Definition mapColumn (index : nat) (column : json) : result Column :=
  header ← columnHeader column;
  columnLabel ← getProp column "label";
  labelText ← (if truthy columnLabel then toString (default JNull columnLabel)
               else Ok (placeholderLabel index));
  columnType ← getProp column "type";
  Ok {| key := headerKey index header;
        label := Js.trim labelText;
        type := if truthy columnType then default JNull columnType
                else JStr "string" |}.

(** One iteration of the [rows.map((row) => ..)] of [mapPayload]. *)
Definition mapRow (h : Host) (cols : list Column) (row : json)
  : result (gmap string string) :=
  forEachColumn
    (λ column index,
       c ← getProp row "c";
       formatCellValue h (optIndex c index) (type column))
    0 cols ∅.

Definition mapPayload (h : Host) (payload : json) : result Table :=
  table ← getProp payload "table";
  cols ← arrayOrEmpty (optProp table "cols");
  columns ← mapMi mapColumn 0 cols;
  rws ← arrayOrEmpty (optProp table "rows");
  rows ← mapM (mapRow h columns) rws;
  Ok {| columns := columns; rows := rows |}.

(** ** CSV text *)

Definition LF : ascii := "010"%char.
Definition CR : ascii := "013"%char.

(** [.replace(/^\uFEFF/, "")]: the byte-order mark is the code unit 0xFEFF,
    which no string of this model contains. *)
Definition stripBom (text : string) : string := text.

(** [.split(/\r?\n/)]: [current] is the piece being read. *)
Fixpoint splitLines (current : string) (text : string) : list string :=
  match text with
  | EmptyString => [current]
  | String c rest =>
      if Ascii.eqb c LF then current :: splitLines "" rest
      else
        match rest with
        | String c' rest' =>
            if Ascii.eqb c CR && Ascii.eqb c' LF
            then current :: splitLines "" rest'
            else splitLines (current +:+ String c "") rest
        | EmptyString => splitLines (current +:+ String c "") rest
        end
  end.

(** One iteration of the [headerValues.map((header, index) => ..)]. *)
Definition csvColumn (index : nat) (header : string) : Column :=
  {| key := headerKey index header;
     label := Js.trim (orElse header (placeholderLabel index));
     type := JStr "string" |}.

Definition csvRow (cols : list Column) (line : string)
  : result (gmap string string) :=
  let values := parseCsvLine line in
  forEachColumn
    (λ column index, Ok (Js.trim (default "" (values !! index))))
    0 cols ∅.

(** The [lines] of [parseCsvText]. *)
Definition csvLines (csvText : string) : list string :=
  List.filter (λ line, negb (Js.isEmpty (Js.trim line)))
    (splitLines "" (stripBom csvText)).

Definition parseCsvText (csvText : string) : result Table :=
  match csvLines csvText with
  | [] => Throw (Error "No rows found in CSV export.")
  | header :: data =>
      let headerValues := parseCsvLine header in
      let columns := imap csvColumn headerValues in
      rows ← mapM (csvRow columns) data;
      Ok {| columns := columns; rows := rows |}
  end.

(** ** Arrays of records *)

(** [Object.keys(v)] *)
Definition objectKeys (v : json) : result (list string) :=
  match v with
  | JNull => Throw TypeError
  | JObj props => Ok (props.*1)
  | JArr items => Ok (Js.ofNat <$> seq 0 (length items))
  | JStr s => Ok (Js.ofNat <$> seq 0 (String.length s))
  | JBool _ | JNum _ => Ok []
  end.

(** The array index that a property name denotes, if it is the decimal
    numeral of one. *)
Definition indexOfName (name : string) : option nat :=
  let n := N.to_nat (Js.numberOfDigits 0 name) in
  if Js.forallb Js.isDigit name && String.eqb (Js.ofNat n) name
  then Some n else None.

(** The own property [name] of [v]. *)
Definition ownProp (v : json) (name : string) : option json :=
  match v with
  | JObj props => assoc name props
  | JArr items =>
      if String.eqb name "length" then Some (JNum (Js.ofNat (length items)))
      else i ← indexOfName name; items !! i
  | JStr s =>
      if String.eqb name "length" then Some (JNum (Js.ofNat (String.length s)))
      else i ← indexOfName name;
           (λ c, JStr (String c "")) <$> String.get i s
  | _ => None
  end.

(** [String(row[name] ?? "")] for any name: an own property, else what the
    prototype chain has under that name, else [undefined]. *)
Definition propText (h : Host) (row : json) (name : string) : result string :=
  match row with
  | JNull => Throw TypeError
  | _ =>
      match ownProp row name with
      | Some v => toStringOrEmpty (Some v)
      | None => Ok (default "" (inheritedText h row name))
      end
  end.

(** One iteration of [Object.keys(firstRow).map((label, index) => ..)]. *)
Definition recordColumn (index : nat) (name : string) : Column :=
  {| key := headerKey index name;
     label := Js.trim (orElse name (placeholderLabel index));
     type := JStr "string" |}.

Definition recordRow (h : Host) (cols : list Column) (row : json)
  : result (gmap string string) :=
  forEachColumn
    (λ column _, Js.trim <$> propText h row (label column))
    0 cols ∅.

(** The body of [if (Array.isArray(rows) && rows.length)] in
    [fetchSheetMappedData] (lines 358-371): [rows] is a non-empty array
    and [firstRow] its first item. *)
Definition mapRecords (h : Host) (firstRow : json) (items : list json)
  : result Table :=
  names ← objectKeys firstRow;
  let columns := imap recordColumn names in
  mappedRows ← mapM (recordRow h columns) items;
  Ok {| columns := columns; rows := mappedRows |}.

(** ** The transport cascade *)

Record Source : Type := mkSource {
  sheetId : string;
  gid : string;
  sheet : string
}.

(** [params.set(name, value)] *)
Fixpoint paramsSet (name value : string) (params : list (string * string))
  : list (string * string) :=
  match params with
  | [] => [(name, value)]
  | (k, v) :: rest =>
      if String.eqb k name
      then (name, value)
             :: List.filter (λ kv, negb (String.eqb kv.1 name)) rest
      else (k, v) :: paramsSet name value rest
  end.

(** [if (source.gid) params.set("gid", ..) else if (source.sheet)
    params.set("sheet", ..)], shared by the three URL builders. *)
Definition selectTab (source : Source) (params : list (string * string))
  : list (string * string) :=
  if negb (Js.isEmpty (gid source)) then paramsSet "gid" (gid source) params
  else if negb (Js.isEmpty (sheet source))
       then paramsSet "sheet" (sheet source) params
       else params.

Definition buildSheetApiUrl (h : Host) (source : Source) : string :=
  let params := selectTab source [("tqx", "out:json"); ("headers", "1")] in
  "https://docs.google.com/spreadsheets/d/"
    +:+ encodeURIComponent h (sheetId source)
    +:+ "/gviz/tq?" +:+ URLSearchParams_toString h params.

Definition buildJsonpSheetApiUrl (h : Host) (source : Source)
    (callbackName : string) : string :=
  let params :=
    selectTab source
      [("tqx", "out:json;responseHandler:" +:+ callbackName);
       ("headers", "1")] in
  "https://docs.google.com/spreadsheets/d/"
    +:+ encodeURIComponent h (sheetId source)
    +:+ "/gviz/tq?" +:+ URLSearchParams_toString h params.

Definition buildCsvApiUrl (h : Host) (source : Source) : string :=
  let params := selectTab source [("format", "csv")] in
  "https://docs.google.com/spreadsheets/d/"
    +:+ encodeURIComponent h (sheetId source)
    +:+ "/export?" +:+ URLSearchParams_toString h params.

Definition buildOpenSheetApiUrl (h : Host) (source : Source) : string :=
  if Js.isEmpty (sheet source) then ""
  else "https://opensheet.elk.sh/"
         +:+ encodeURIComponent h (sheetId source)
         +:+ "/" +:+ encodeURIComponent h (sheet source).

(** [text.indexOf(c)] and [text.lastIndexOf(c)], [None] for [-1]. *)
Fixpoint indexOf (c : ascii) (text : string) : option nat :=
  match text with
  | EmptyString => None
  | String c' rest => if Ascii.eqb c' c then Some 0 else S <$> indexOf c rest
  end.

Fixpoint lastIndexOf (c : ascii) (text : string) : option nat :=
  match text with
  | EmptyString => None
  | String c' rest =>
      match lastIndexOf c rest with
      | Some i => Some (S i)
      | None => if Ascii.eqb c' c then Some 0 else None
      end
  end.

Definition parseGvizResponse (h : Host) (text : string) : result json :=
  match indexOf "{" text, lastIndexOf "}" text with
  | Some start, Some end_ =>
      if end_ <=? start then Throw (Error "Invalid response from Google Sheets.")
      else JSON_parse h (String.substring start (end_ + 1 - start) text)
  | _, _ => Throw (Error "Invalid response from Google Sheets.")
  end.

(** What [fetch] resolves to: [response.ok], [response.status] and the
    outcome of reading the body with [response.text()]. *)
Record Response : Type := mkResponse {
  ok : bool;
  status : nat;
  text : result string
}.

(** The fate of an injected script: it calls the registered callback with a
    payload, it fails to load, or neither happens within 15 seconds. *)
Inductive ScriptOutcome : Type :=
  | Called (payload : option json)
  | LoadError
  | Silent.

Record World : Type := mkWorld {
  (** [await fetch(url, { cache: "no-store" })], [Throw] when it rejects *)
  fetch : string → result Response;
  (** [Date.now()] *)
  Date_now : N;
  (** [Math.floor(Math.random() * 1e6)] *)
  Math_random : N;
  (** what happens to a script appended with this [src] *)
  loadScript : string → ScriptOutcome
}.

(** [await response.json()] *)
Definition responseJson (h : Host) (response : Response) : result json :=
  body ← text response; JSON_parse h body.

Definition fetchSheetPayloadWithJsonp (h : Host) (w : World) (source : Source)
  : result (option json) :=
  let callbackName :=
    "sheetCallback_" +:+ pretty (Date_now w)
      +:+ "_" +:+ pretty (Math_random w) in
  match loadScript w (buildJsonpSheetApiUrl h source callbackName) with
  | Called payload => Ok payload
  | LoadError => Throw (Error "Could not load sheet data via JSONP.")
  | Silent => Throw (Error "Timed out while loading sheet data.")
  end.

Definition unavailableMessage : string :=
  "Unable to load sheet data. Make sure the sheet is shared to Anyone with the link (Viewer) or published to the web.".

Definition unavailable : exn := Error unavailableMessage.

(** The bodies of the three [try] blocks; [Ok None] is control leaving the
    block without a [return]. *)
Definition tryGviz (h : Host) (w : World) (source : Source)
  : result (option Table) :=
  gvizResponse ← fetch w (buildSheetApiUrl h source);
  if negb (ok gvizResponse)
  then Throw (Error ("Google Sheet API returned "
                       +:+ Js.ofNat (status gvizResponse)))
  else
    body ← text gvizResponse;
    payload ← parseGvizResponse h body;
    if truthy (optProp (Some payload) "table")
    then Some <$> mapPayload h payload
    else Ok None.

Definition tryJsonp (h : Host) (w : World) (source : Source)
  : result (option Table) :=
  jsonpPayload ← fetchSheetPayloadWithJsonp h w source;
  if truthy (optProp jsonpPayload "table")
  then Some <$> mapPayload h (default JNull jsonpPayload)
  else Ok None.

Definition tryCsv (h : Host) (w : World) (source : Source)
  : result (option Table) :=
  csvResponse ← fetch w (buildCsvApiUrl h source);
  if ok csvResponse
  then body ← text csvResponse; Some <$> parseCsvText body
  else Ok None.

(** The OpenSheet fallback, which is in no [try] block. *)
Definition openSheet (h : Host) (w : World) (source : Source)
  : result (option Table) :=
  let openSheetUrl := buildOpenSheetApiUrl h source in
  if Js.isEmpty openSheetUrl then Ok None
  else
    openSheetResponse ← fetch w openSheetUrl;
    if ok openSheetResponse
    then
      rows ← responseJson h openSheetResponse;
      match rows with
      | JArr (firstRow :: rest) =>
          Some <$> mapRecords h firstRow (firstRow :: rest)
      | _ => Ok None
      end
    else Ok None.

Definition fetchSheetMappedData (h : Host) (w : World) (source : Source)
  : result Table :=
  match catch (tryGviz h w source) with
  | Some table => Ok table
  | None =>
  match catch (tryJsonp h w source) with
  | Some table => Ok table
  | None =>
  match catch (tryCsv h w source) with
  | Some table => Ok table
  | None =>
      found ← openSheet h w source;
      match found with
      | Some table => Ok table
      | None => Throw unavailable
      end
  end end end.

(** ** The link resolver *)

(** [text.match(/L([a-zA-Z0-9-_]{n,})/)?.[1]] where [L] is one of the
    literals [lits] (at most one of them fits at a position): the regular
    expression matches at the leftmost position where a literal is followed
    by at least [n] characters of the class, and the greedy group is that
    whole run. [None] when there is no match. *)
Definition matchHere (lits : list string) (n : nat) (text : string)
  : option string :=
  forOf
    (λ lit,
       rest ← Js.stripPrefix lit text;
       let run := (Js.span Js.isIdChar rest).1 in
       if n <=? String.length run then Some run else None)
    lits.

Fixpoint matchAfter (lits : list string) (n : nat) (text : string)
  : option string :=
  match matchHere lits n text with
  | Some run => Some run
  | None =>
      match text with
      | EmptyString => None
      | String _ rest => matchAfter lits n rest
      end
  end.

(** The [for (const pattern of patterns)] loop of [extractSheetIdFromRaw]:
    the first pattern that matches gives the identifier. *)
Definition extractSheetIdFromRaw (rawValue : string) : string :=
  let patterns :=
    [ ["/spreadsheets/d/"]; ["?id="; "&id="]; ["?key="; "&key="];
      ["/file/d/"] ] in
  default "" (forOf (λ lits, matchAfter lits 20 rawValue) patterns).

(** [String(params.get(name) || "").trim()] *)
Definition paramTrimmed (name : string) (params : list (string * string))
  : string :=
  Js.trim (default "" (assoc name params)).

Definition extractSheetId (url : URL) : string :=
  match matchAfter ["/spreadsheets/d/"] 1 (pathname url) with
  | Some pathMatch => pathMatch
  | None =>
  match matchAfter ["/file/d/"] 1 (pathname url) with
  | Some driveFileMatch => driveFileMatch
  | None =>
      let idParam := paramTrimmed "id" (searchParams url) in
      if negb (Js.isEmpty idParam) then idParam
      else
        let keyParam := paramTrimmed "key" (searchParams url) in
        if negb (Js.isEmpty keyParam) then keyParam else ""
  end end.

(** [/^https?:\/\//i.test(text)] *)
Definition hasHttpScheme (text : string) : bool :=
  let lower := Js.toLowerCase text in
  Js.startsWith "http://" lower || Js.startsWith "https://" lower.

(** [/^[a-zA-Z0-9-_]{30,}$/] *)
Definition isIdOnly (text : string) : bool :=
  Js.forallb Js.isIdChar text && (30 <=? String.length text).

Record ParsedLink : Type := mkParsedLink {
  raw : string;
  url : URL;
  displayUrl : string
}.

(** [new URL(`https://docs.google.com/spreadsheets/d/${id}/edit`)] *)
Definition sheetUrl (h : Host) (id : string) : result URL :=
  match URL_new h ("https://docs.google.com/spreadsheets/d/" +:+ id +:+ "/edit") with
  | Some u => Ok u
  | None => Throw TypeError
  end.

Definition parseGoogleSheetLink (h : Host) (rawValue : string)
  : result ParsedLink :=
  let trimmed := Js.trim rawValue in
  if Js.isEmpty trimmed then Throw (Error "Please paste a Google Sheets link.")
  else if isIdOnly trimmed then
    u ← sheetUrl h trimmed;
    Ok {| raw := trimmed; url := u; displayUrl := href u |}
  else
    let withProtocol :=
      if hasHttpScheme trimmed then trimmed else "https://" +:+ trimmed in
    u ← match URL_new h withProtocol with
        | Some u => Ok u
        | None =>
            let rawId := extractSheetIdFromRaw trimmed in
            if Js.isEmpty rawId
            then Throw (Error "Invalid URL. Paste a valid Google Sheets link.")
            else sheetUrl h rawId
        end;
    let isDocsHost :=
      String.eqb (hostname u) "docs.google.com"
      || Js.endsWith (hostname u) ".docs.google.com" in
    let isDriveHost :=
      String.eqb (hostname u) "drive.google.com"
      || Js.endsWith (hostname u) ".drive.google.com" in
    let hasRawId :=
      negb (Js.isEmpty (orElse (extractSheetId u)
                          (extractSheetIdFromRaw trimmed))) in
    if (negb isDocsHost && negb isDriveHost) && negb hasRawId
    then Throw (Error "Only Google Sheets links are supported.")
    else Ok {| raw := trimmed; url := u; displayUrl := withProtocol |}.

(** [String(url.hash ?? "").replace(/^#/, "")] *)
Definition hashText (u : URL) : string :=
  match hash u with
  | String c rest => if Ascii.eqb c "#" then rest else hash u
  | EmptyString => ""
  end.

(** [String(a.get(name) || b.get(name) || "").trim()] *)
Definition firstParam (name : string) (a b : list (string * string)) : string :=
  Js.trim (orElse (default "" (assoc name a)) (default "" (assoc name b))).

Definition getSheetSource (h : Host) (u : URL) (rawValue : string)
  : result Source :=
  let id := orElse (extractSheetId u) (extractSheetIdFromRaw rawValue) in
  if Js.isEmpty id then Throw (Error "Unable to read this Google Sheets link.")
  else
    let hashParams := URLSearchParams_parse h (hashText u) in
    Ok {| sheetId := id;
          gid := firstParam "gid" (searchParams u) hashParams;
          sheet := firstParam "sheet" (searchParams u) hashParams |}.

(** The link resolver of the page: [handleSubmit] parses the input, and
    [loadSheetData] reads the sheet reference off the parsed link. *)
Definition resolveLink (h : Host) (input : string) : result Source :=
  parsed ← parseGoogleSheetLink h input;
  getSheetSource h (url parsed) (raw parsed).

(** ** Facets *)

(** The four roles, each with a value of type [A]: the aliases of a role
    in [COLUMN_ALIASES], the key of its column in [state.filterColumns]. *)
Record Roles (A : Type) : Type := mkRoles {
  system : A;
  milestone : A;
  developer : A;
  manager : A
}.
Arguments mkRoles {A} _ _ _ _.
Arguments system {A} _.
Arguments milestone {A} _.
Arguments developer {A} _.
Arguments manager {A} _.

Definition COLUMN_ALIASES : Roles (list string) :=
  {| system := ["system"; "project name"; "system project name";
                "system (project name)"];
     milestone := ["milestone"; "next milestone"];
     developer := ["assigned developer"; "developer"];
     manager := ["assigned project manager"; "project manager"] |}.

(** The two tests of [findColumnKey] on a column. *)
Definition exactMatch (alias : string) (column : Column) : bool :=
  String.eqb (key column) alias.

Definition partialMatch (alias : string) (column : Column) : bool :=
  Js.includes (key column) alias || Js.includes alias (key column).

Definition findColumnKey (cols : list Column) (aliases : list string)
  : string :=
  let normalizedAliases := normalizeHeader <$> aliases in
  match forOf (λ alias, List.find (exactMatch alias) cols)
          normalizedAliases with
  | Some exact => key exact
  | None =>
      match forOf (λ alias, List.find (partialMatch alias) cols)
              normalizedAliases with
      | Some partial => key partial
      | None => ""
      end
  end.

(** [columns[i]?.key || rest] *)
Definition keyAtOr (cols : list Column) (i : nat) (rest : string) : string :=
  match cols !! i with
  | Some column => orElse (key column) rest
  | None => rest
  end.

Definition determineFilterColumns (cols : list Column) : Roles string :=
  let systemKey :=
    orElse (findColumnKey cols (system COLUMN_ALIASES)) (keyAtOr cols 0 "") in
  let milestoneKey :=
    orElse (findColumnKey cols (milestone COLUMN_ALIASES))
      (keyAtOr cols 1 (keyAtOr cols 0 "")) in
  let developerKey := findColumnKey cols (developer COLUMN_ALIASES) in
  let managerKey := findColumnKey cols (manager COLUMN_ALIASES) in
  {| system := systemKey;
     milestone := milestoneKey;
     developer := developerKey;
     manager := managerKey |}.

(** ** Filters *)

Record Filters : Type := mkFilters {
  filterSystem : string;
  filterMilestone : string;
  search : string
}.

(** The [state] object: its [filters.system] and [filters.milestone] are
    [filterSystem] and [filterMilestone] here. *)
Record State : Type := mkState {
  stateColumns : list Column;
  stateRows : list (gmap string string);
  filteredRows : list (gmap string string);
  filters : Filters;
  filterColumns : Roles string
}.

(** [String(row[name] ?? "")] on a row, which is a plain object: the own
    property, else what [Object.prototype] has under that name. *)
Definition rowText (h : Host) (row : gmap string string) (name : string)
  : string :=
  match row !! name with
  | Some value => value
  | None => default "" (inheritedText h (JObj []) name)
  end.

Definition rowMatchesSearch (h : Host) (st : State)
    (row : gmap string string) (query : string) : bool :=
  if Js.isEmpty query then true
  else
    let keys :=
      List.filter (λ name, negb (Js.isEmpty name))
        [ system (filterColumns st); milestone (filterColumns st);
          developer (filterColumns st); manager (filterColumns st) ] in
    existsb
      (λ name, Js.includes (Js.toLowerCase (rowText h row name)) query)
      keys.

(** The callback of [state.rows.filter(..)] in [applyFilters]. *)
Definition rowPasses (h : Host) (st : State) (searchQuery : string)
    (row : gmap string string) : bool :=
  if negb (Js.isEmpty (filterSystem (filters st)))
     && negb (String.eqb (rowText h row (system (filterColumns st)))
                (filterSystem (filters st)))
  then false
  else if negb (Js.isEmpty (filterMilestone (filters st)))
          && negb (String.eqb (rowText h row (milestone (filterColumns st)))
                     (filterMilestone (filters st)))
  then false
  else rowMatchesSearch h st row searchQuery.

(** [applyFilters]: the new [state]; the two render calls that follow only
    write the page. *)
Definition applyFilters (h : Host) (st : State) : State :=
  let searchQuery := Js.toLowerCase (Js.trim (search (filters st))) in
  {| stateColumns := stateColumns st;
     stateRows := stateRows st;
     filteredRows := List.filter (rowPasses h st searchQuery) (stateRows st);
     filters := filters st;
     filterColumns := filterColumns st |}.

(** The spec's names for what the program throws (its section 7); the
    program itself only has the messages. *)
Inductive ErrorKind : Type :=
  | InvalidLinkError
  | UnsupportedLinkError
  | MalformedResponseError
  | UnavailableError
  | EmptyTableError.

Definition errorKind (e : exn) : option ErrorKind :=
  match e with
  | Error message =>
      if String.eqb message "Please paste a Google Sheets link."
      then Some InvalidLinkError
      else if String.eqb message "Invalid URL. Paste a valid Google Sheets link."
      then Some InvalidLinkError
      else if String.eqb message "Only Google Sheets links are supported."
      then Some UnsupportedLinkError
      else if String.eqb message "Invalid response from Google Sheets."
      then Some MalformedResponseError
      else if String.eqb message "No rows found in CSV export."
      then Some EmptyTableError
      else if String.eqb message "No columns found in the selected sheet."
      then Some EmptyTableError
      else if String.eqb message unavailableMessage
      then Some UnavailableError
      else None
  | _ => None
  end.

(** ** HTML text *)

(** [s.replaceAll(c, replacement)] for a pattern of one character and a
    replacement without [$]. *)
Fixpoint replaceAll (c : ascii) (replacement : string) (s : string) : string :=
  match s with
  | EmptyString => EmptyString
  | String a rest =>
      if Ascii.eqb a c then replacement +:+ replaceAll c replacement rest
      else String a (replaceAll c replacement rest)
  end.

(** [escapeHtml(value)] behind its [String(value ?? "")]. *)
Definition escapeHtml (value : string) : string :=
  replaceAll "'" "&#39;"
    (replaceAll quote "&quot;"
       (replaceAll ">" "&gt;"
          (replaceAll "<" "&lt;"
             (replaceAll "&" "&amp;" value)))).

(** ** Distinct values *)

(** [[...new Set(xs)]]: the first occurrence of every value, in order;
    [seen] is what the set already holds. *)
Fixpoint dedupe (seen : list string) (xs : list string) : list string :=
  match xs with
  | [] => []
  | x :: rest =>
      if bool_decide (x ∈ seen) then dedupe seen rest
      else x :: dedupe (x :: seen) rest
  end.

(** [xs.sort((a, b) => compare(a, b))]. The sort of an array is stable, so
    for a consistent comparator, as [localeCompare] is, its result is the
    one of this insertion sort: an item goes in front of the first item it
    does not compare greater than. *)
Fixpoint insertSorted (compare : string → string → Z) (x : string)
    (sorted : list string) : list string :=
  match sorted with
  | [] => [x]
  | y :: rest =>
      if (compare x y <=? 0)%Z then x :: y :: rest
      else y :: insertSorted compare x rest
  end.

Definition sortWith (compare : string → string → Z) (xs : list string)
  : list string :=
  foldr (insertSorted compare) [] xs.

(** [uniqueValues(rows, key)]; [localeCompare a b] is [a.localeCompare(b)]
    in the locale of the page. *)
Definition uniqueValues (localeCompare : string → string → Z) (h : Host)
    (rs : list (gmap string string)) (name : string) : list string :=
  if Js.isEmpty name then []
  else
    sortWith localeCompare
      (dedupe []
         (List.filter (λ value, negb (Js.isEmpty value))
            ((λ row, Js.trim (rowText h row name)) <$> rs))).


(** ** The page *)

(** The [state] object together with what the handlers read and write
    outside of it: the item [projectStatusSheetLink] of [localStorage], the
    values of the two text inputs and the feedback line ([isError] decides
    its colour). The tables and menus that the render functions write are
    functions of [state] and are not stored. *)
Record Page : Type := mkPage {
  pageState : State;
  storage : option string;
  sourceInput : string;
  searchInput : string;
  feedback : string;
  feedbackIsError : bool
}.

Definition noRoles : Roles string :=
  {| system := ""; milestone := ""; developer := ""; manager := "" |}.

(** [loadSheetData(parsedLink)]: the new [state], or what it throws before
    it touches [state]. *)
Definition loadSheetData (h : Host) (w : World) (st : State)
    (parsedLink : ParsedLink) : result State :=
  source ← getSheetSource h (url parsedLink) (raw parsedLink);
  mapped ← fetchSheetMappedData h w source;
  match columns mapped with
  | [] => Throw (Error "No columns found in the selected sheet.")
  | _ :: _ =>
      Ok (applyFilters h
            {| stateColumns := columns mapped;
               stateRows := rows mapped;
               filteredRows := filteredRows st;
               filters := {| filterSystem := "";
                             filterMilestone := "";
                             search := search (filters st) |};
               filterColumns := determineFilterColumns (columns mapped) |})
  end.

(** [error.message]; [nativeMessage] is the message of an exception that
    the host raised. *)
Definition messageOf (nativeMessage : exn → string) (e : exn) : string :=
  match e with
  | Error message => message
  | _ => nativeMessage e
  end.

(** The [catch] block of [handleSubmit]. *)
Definition submitFailed (nativeMessage : exn → string) (page : Page) (e : exn)
  : Page :=
  {| pageState :=
       {| stateColumns := [];
          stateRows := [];
          filteredRows := [];
          filters := filters (pageState page);
          filterColumns := noRoles |};
     storage := storage page;
     sourceInput := sourceInput page;
     searchInput := searchInput page;
     feedback := orElse (messageOf nativeMessage e)
                   "Unable to load Google Sheets data.";
     feedbackIsError := true |}.

Definition handleSubmit (h : Host) (nativeMessage : exn → string) (w : World)
    (page : Page) : Page :=
  match parseGoogleSheetLink h (sourceInput page) with
  | Throw e => submitFailed nativeMessage page e
  | Ok parsed =>
      let stored :=
        {| pageState := pageState page;
           storage := Some (displayUrl parsed);
           sourceInput := displayUrl parsed;
           searchInput := searchInput page;
           feedback := feedback page;
           feedbackIsError := feedbackIsError page |} in
      match loadSheetData h w (pageState page) parsed with
      | Throw e => submitFailed nativeMessage stored e
      | Ok st =>
          {| pageState := st;
             storage := Some (displayUrl parsed);
             sourceInput := displayUrl parsed;
             searchInput := searchInput page;
             feedback := "Sheet loaded successfully.";
             feedbackIsError := false |}
      end
  end.

Definition resetView (page : Page) : Page :=
  {| pageState :=
       {| stateColumns := [];
          stateRows := [];
          filteredRows := [];
          filters := {| filterSystem := ""; filterMilestone := "";
                        search := "" |};
          filterColumns := noRoles |};
     storage := None;
     sourceInput := "";
     searchInput := "";
     feedback := "Paste a Google Sheets link and click View Data.";
     feedbackIsError := false |}.

(** [init], on the page as the browser loaded it. *)
Definition init (h : Host) (nativeMessage : exn → string) (w : World)
    (page : Page) : Page :=
  let cleared := resetView page in
  match storage cleared with
  | Some savedLink =>
      if Js.isEmpty savedLink then cleared
      else
        handleSubmit h nativeMessage w
          {| pageState := pageState cleared;
             storage := storage cleared;
             sourceInput := savedLink;
             searchInput := searchInput cleared;
             feedback := feedback cleared;
             feedbackIsError := feedbackIsError cleared |}
  | None => cleared
  end.

(** What happens on the page after [init]: the form is submitted (the
    network then answers as [w]), the reset button is clicked, one of the
    two menus changes, or the user types in one of the two inputs. *)
Inductive Event : Type :=
  | Submit (w : World)
  | Reset
  | SystemChange (value : string)
  | MilestoneChange (value : string)
  | SearchInput (value : string)
  | SourceInput (value : string).

(** [state.filters = { ..state.filters, .. }] followed by [applyFilters()],
    as the three listeners of [bindFilters] do. *)
Definition withFilters (h : Host) (fs : Filters) (page : Page) : Page :=
  {| pageState :=
       applyFilters h
         {| stateColumns := stateColumns (pageState page);
            stateRows := stateRows (pageState page);
            filteredRows := filteredRows (pageState page);
            filters := fs;
            filterColumns := filterColumns (pageState page) |};
     storage := storage page;
     sourceInput := sourceInput page;
     searchInput := searchInput page;
     feedback := feedback page;
     feedbackIsError := feedbackIsError page |}.

Definition step (h : Host) (nativeMessage : exn → string) (page : Page)
    (event : Event) : Page :=
  match event with
  | Submit w => handleSubmit h nativeMessage w page
  | Reset => resetView page
  | SystemChange value =>
      withFilters h
        {| filterSystem := value;
           filterMilestone := filterMilestone (filters (pageState page));
           search := search (filters (pageState page)) |}
        page
  | MilestoneChange value =>
      withFilters h
        {| filterSystem := filterSystem (filters (pageState page));
           filterMilestone := value;
           search := search (filters (pageState page)) |}
        page
  | SearchInput value =>
      withFilters h
        {| filterSystem := filterSystem (filters (pageState page));
           filterMilestone := filterMilestone (filters (pageState page));
           search := value |}
        {| pageState := pageState page;
           storage := storage page;
           sourceInput := sourceInput page;
           searchInput := value;
           feedback := feedback page;
           feedbackIsError := feedbackIsError page |}
  | SourceInput value =>
      {| pageState := pageState page;
         storage := storage page;
         sourceInput := value;
         searchInput := searchInput page;
         feedback := feedback page;
         feedbackIsError := feedbackIsError page |}
  end.

(** The page after a sequence of events, handled one at a time: the promise
    of a submit has settled before the next event arrives. *)
Definition run(h : Host) (nativeMessage : exn → string) (page : Page)
    (events : list Event) : Page :=
  foldl (step h nativeMessage) page events.

(** ** A host and a world for the examples *)

Module Example.

Fixpoint splitOn (sep : ascii) (current : string) (s : string) : list string :=
  match s with
  | EmptyString => [current]
  | String c rest =>
      if Ascii.eqb c sep then current :: splitOn sep "" rest
      else splitOn sep (current +:+ String c "") rest
  end.

Definition isNot (stops : list ascii) (c : ascii) : bool :=
  negb (existsb (Ascii.eqb c) stops).

(** [name=value&name=value] *)
Definition parseQuery (query : string) : list (string * string) :=
  if Js.isEmpty query then []
  else
    (λ item, let '(name, value) := Js.span (isNot ["="%char]) item in
             (name, default "" (Js.stripPrefix "=" value)))
      <$> splitOn "&" "" query.

(** A parser for texts of the plain shape
    [http(s)://host/path?query#fragment]. *)
Definition parseUrl (s : string) : option URL :=
  rest ← (match Js.stripPrefix "https://" s with
          | Some r => Some r
          | None => Js.stripPrefix "http://" s
          end);
  let '(host, rest) := Js.span (isNot ["/"; "?"; "#"]%char) rest in
  if Js.isEmpty host then None
  else
    let '(path, rest) := Js.span (isNot ["?"; "#"]%char) rest in
    let '(query, fragment) := Js.span (isNot ["#"%char]) rest in
    Some {| hostname := host;
            pathname := orElse path "/";
            searchParams :=
              parseQuery (default "" (Js.stripPrefix "?" query));
            hash := fragment;
            href := s |}.

Fixpoint joinParams (params : list (string * string)) : string :=
  match params with
  | [] => ""
  | [(k, v)] => k +:+ "=" +:+ v
  | (k, v) :: rest => k +:+ "=" +:+ v +:+ "&" +:+ joinParams rest
  end.

(** Dates in the style month/day/year. *)
Definition usDate (year month day : N) : string :=
  pretty (month + 1)%N +:+ "/" +:+ pretty day +:+ "/" +:+ pretty year.

Definition host : Host :=
  {| URL_new := parseUrl;
     URLSearchParams_parse := parseQuery;
     URLSearchParams_toString := joinParams;
     encodeURIComponent := λ s, s;
     JSON_parse := λ _, Throw SyntaxError;
     toLocaleDateString := usDate;
     inheritedText := λ _ name,
       if String.eqb name "constructor"
       then Some "function Object() { [native code] }" else None |}.

(** The same host in another locale: day.month.year. *)
Definition hostDE : Host :=
  {| URL_new := parseUrl;
     URLSearchParams_parse := parseQuery;
     URLSearchParams_toString := joinParams;
     encodeURIComponent := λ s, s;
     JSON_parse := λ _, Throw SyntaxError;
     toLocaleDateString := λ year month day,
       pretty day +:+ "." +:+ pretty (month + 1)%N +:+ "." +:+ pretty year;
     inheritedText := λ _ _, None |}.

(** A host with the dates of [host] and objects that inherit nothing. *)
Definition bareHost : Host :=
{| URL_new := parseUrl;
   URLSearchParams_parse := parseQuery;
   URLSearchParams_toString := joinParams;
   encodeURIComponent := λ s, s;
   JSON_parse := λ _, Throw SyntaxError;
   toLocaleDateString := usDate;
   inheritedText := λ _ _, None |}.

(** A comparator for the examples: shorter strings first. *)
Definition byLength (a b : string) : Z :=
  (Z.of_nat (String.length a) - Z.of_nat (String.length b))%Z.

(** No network: every [fetch] rejects and every script fails to load. *)
Definition offline : World :=
  {| fetch := λ _, Throw TypeError;
     Date_now := 1700000000000;
     Math_random := 424242;
     loadScript := λ _, LoadError |}.

End Example.


(** ** Predicates of the statements *)

(** The headers of a table do not collide: a header whose normalised text
    is not empty shares it with no other header, and no header normalises
    to the placeholder of a column whose own normalised text is empty. *)
Definition headersDistinct (headers : list string) : Prop :=
  (∀ i j a b,
     headers !! i = Some a → headers !! j = Some b → i ≠ j →
     normalizeHeader a ≠ "" → normalizeHeader a ≠ normalizeHeader b)
  ∧ (∀ i j a b,
       headers !! i = Some a → headers !! j = Some b →
       normalizeHeader b = "" → normalizeHeader a ≠ placeholderKey j).

(** A non-empty string of decimal digits, what [\d+] matches. *)
Definition isDigits (s : string) : Prop :=
  s ≠ "" ∧ Js.forallb Js.isDigit s = true.

(** A string that does not start with white space. *)
Definition noLeadingSpace (s : string) : Prop :=
  match s with
  | String c _ => Js.isSpace c = false
  | EmptyString => True
  end.

(** No quote character, and neither quote nor comma. *)
Definition noQuote (s : string) : Prop :=
  Js.forallb (λ c, negb (Ascii.eqb c quote)) s = true.

Definition plain (s : string) : Prop :=
  Js.forallb (λ c, negb (Ascii.eqb c quote) && negb (Ascii.eqb c comma)) s
  = true.

(** No alias of the list matches a column of the table, neither exactly nor
    as a substring in either direction. *)
Definition unmatched (cols : list Column) (aliases : list string) : Prop :=
  ∀ alias c, alias ∈ aliases → c ∈ cols →
             partialMatch (normalizeHeader alias) c = false.

(** A facet lets a row through: nothing is selected (the option "All",
    whose value is the empty string), or the row's value in the column
    mapped to the facet is the selection. *)
Definition selects (selection value : string) : bool :=
  Js.isEmpty selection || String.eqb value selection.

(** The rows that both facets of a state let through. *)
Definition facetRows (h : Host) (st : State) : list (gmap string string) :=
  List.filter
    (λ row,
       selects (filterSystem (filters st))
         (rowText h row (system (filterColumns st)))
       && selects (filterMilestone (filters st))
            (rowText h row (milestone (filterColumns st))))
    (stateRows st).

(** ** Predicates of the further statements *)

(** Lower-case letters and digits separated by single spaces: [spaced] says
    that no space follows a space ([afterSpace] is whether the character
    before was one), and [wordsOnly] moreover that no space ends the text. *)
Fixpoint spaced (afterSpace : bool) (s : string) : bool :=
  match s with
  | EmptyString => true
  | String c rest =>
      if Ascii.eqb c " " then negb afterSpace && spaced true rest
      else (Js.isLower c || Js.isDigit c) && spaced false rest
  end.

Fixpoint wordsOnly (afterSpace : bool) (s : string) : bool :=
  match s with
  | EmptyString => negb afterSpace
  | String c rest =>
      if Ascii.eqb c " " then negb afterSpace && wordsOnly true rest
      else (Js.isLower c || Js.isDigit c) && wordsOnly false rest
  end.

(** The texts that are keys: empty, or words of lower-case letters and
    digits with one space between two words and none at either end. *)
Definition isKeyText (s : string) : bool :=
  Js.isEmpty s || wordsOnly true s.

(** A table whose columns all have a key and whose rows all have a value
    under the key of every column, and under nothing else. *)
Definition wellFormedTable (cols : list Column)
    (rs : list (gmap string string)) : Prop :=
  Forall (λ c, key c ≠ "" ∧ isKeyText (key c) = true) cols
  ∧ Forall (λ row : gmap string string,
              dom row = (list_to_set (key <$> cols) : gset string)) rs.

(** A field written the way CSV writers quote it: between quotes, with every
    quote of the field doubled. *)
Definition csvQuote (field : string) : string :=
  String quote
    (replaceAll quote (String quote (String quote "")) field
       +:+ String quote "").

(** The characters that open and close tags and attribute values, and those
    together with the ampersand, which opens an entity. *)
Definition isMarkup (c : ascii) : bool :=
  Ascii.eqb c "<" || Ascii.eqb c ">" || Ascii.eqb c quote || Ascii.eqb c "'".

Definition isHtmlSpecial (c : ascii) : bool :=
  Ascii.eqb c "&" || isMarkup c.

(** What [escapeHtml] makes of one character. *)
Definition escapeChar (c : ascii) : string :=
  if Ascii.eqb c "&" then "&amp;"
  else if Ascii.eqb c "<" then "&lt;"
  else if Ascii.eqb c ">" then "&gt;"
  else if Ascii.eqb c quote then "&quot;"
  else if Ascii.eqb c "'" then "&#39;"
  else String c "".

(** What holds of the page between two events: the filtered rows are the
    rows that the current filters let through, the facets are those of the
    current columns, the table is well formed, there are no rows without
    columns, and the search box shows the search text of the state. *)
Definition consistent (h : Host) (page : Page) : Prop :=
  filteredRows (pageState page) = filteredRows (applyFilters h (pageState page))
  ∧ filterColumns (pageState page)
    = determineFilterColumns (stateColumns (pageState page))
  ∧ wellFormedTable (stateColumns (pageState page)) (stateRows (pageState page))
  ∧ (stateColumns (pageState page) = [] → stateRows (pageState page) = [])
  ∧ searchInput page = search (filters (pageState page)).

(** A key of one of the columns, or no key. *)
Definition keyOrNone (cols : list Column) (name : string) : Prop :=
  name = "" ∨ ∃ c, c ∈ cols ∧ key c = name.

(** The texts that come before an identifier in a link, as the patterns of
    [extractSheetIdFromRaw] have them. *)
Definition idMarkers : list string :=
  ["/spreadsheets/d/"; "?id="; "&id="; "?key="; "&key="; "/file/d/"].



(** The character [c] does not occur in [s]. *)
Definition without (c : ascii) (s : string) : Prop :=
  Js.forallb (λ a, negb (Ascii.eqb a c)) s = true.

(** What [parseGvizResponse] throws. *)
Definition invalidResponse : exn :=
  Error "Invalid response from Google Sheets.".



(** ** Inputs of the examples *)

(** The text of the example: [a,"b,c",d], a line feed, [1,"2,2",3]. *)
Definition csvExample : string :=
  "a," +:+ String quote "b,c" +:+ String quote ",d"
    +:+ String LF "1," +:+ String quote "2,2" +:+ String quote ",3".

(** A state with one row, the system facet set to the value of that row
    and a search text that the row does not contain. *)
Definition searchingState : State :=
  {| stateColumns := imap csvColumn ["System"];
     stateRows := [{[ "system" := "Alpha" ]}];
     filteredRows := [];
     filters := {| filterSystem := "Alpha"; filterMilestone := "";
                   search := "beta" |};
     filterColumns := determineFilterColumns (imap csvColumn ["System"]) |}.

(** A state with two rows, nothing selected and a search text of two
    spaces. *)
Definition idleState : State :=
  {| stateColumns := imap csvColumn ["System"; "Milestone"];
     stateRows := [ {[ "system" := "Alpha"; "milestone" := "M1" ]};
                    {[ "system" := "Beta"; "milestone" := "M1" ]} ];
     filteredRows := [];
     filters := {| filterSystem := ""; filterMilestone := "";
                   search := "  " |};
     filterColumns :=
       determineFilterColumns (imap csvColumn ["System"; "Milestone"]) |}.

(** A typed-cell payload with one date column and one row. *)
Definition datePayload : json :=
  JObj [("table",
         JObj [("cols", JArr [JObj [("label", JStr "Due");
                                    ("type", JStr "date")]]);
               ("rows",
                JArr [JObj [("c", JArr [JObj [("v", JStr "Date(2024,0,15)")]])]])])].


(** * Properties *)

(** ** The functions on the inputs of the spec's examples *)

Example normalizeHeader_manager :
  normalizeHeader "  Assigned Project Manager " = "assigned project manager".
Proof. reflexivity. Qed.

Example normalizeHeader_parens :
  normalizeHeader "System (Project Name)" = "system project name".
Proof. reflexivity. Qed.

Example normalizeHeader_symbols : normalizeHeader " #?! " = "".
Proof. reflexivity. Qed.

Example parseCsvLine_quoted :
  parseCsvLine ("a," +:+ String quote "b,c" +:+ String quote ",d")
  = ["a"; "b,c"; "d"].
Proof. reflexivity. Qed.

Example parseCsvLine_empty : parseCsvLine "" = [""].
Proof. reflexivity. Qed.

Example splitLines_crlf :
  splitLines "" ("a" +:+ String CR (String LF "b") +:+ String LF "")
  = ["a"; "b"; ""].
Proof. reflexivity. Qed.

Example resolveLink_gid :
  resolveLink Example.host "docs.google.com/spreadsheets/d/ABC123XYZ/edit#gid=42"
  = Ok {| sheetId := "ABC123XYZ"; gid := "42"; sheet := "" |}.
Proof. by vm_compute. Qed.

Example determineFilterColumns_fallback :
  determineFilterColumns (imap csvColumn ["Id"; "Status"; "Owner"])
  = {| system := "id"; milestone := "status"; developer := ""; manager := "" |}.
Proof. by vm_compute. Qed.

(** ** Strings *)

Section strings.
Implicit Types (s t u : string) (c : ascii) (p : ascii → bool).

Lemma sapp_cons c s t : String c s +:+ t = String c (s +:+ t).
Proof. reflexivity. Qed.

Lemma sapp_nil_l s : "" +:+ s = s.
Proof. reflexivity. Qed.

Lemma sapp_nil_r s : s +:+ "" = s.
Proof. induction s as [|c s IH]; [done|]. by rewrite sapp_cons, IH. Qed.

Lemma sapp_assoc s t u : (s +:+ t) +:+ u = s +:+ (t +:+ u).
Proof. induction s as [|c s IH]; [done|]. by rewrite !sapp_cons, IH. Qed.

Lemma sapp_snoc s c t : (s +:+ String c "") +:+ t = s +:+ String c t.
Proof. by rewrite sapp_assoc. Qed.

Lemma slength_app s t :
  String.length (s +:+ t) = String.length s + String.length t.
Proof. induction s as [|c s IH]; [done|]. rewrite sapp_cons. simpl. lia. Qed.

Lemma isEmpty_true s : Js.isEmpty s = true ↔ s = "".
Proof. by destruct s. Qed.

Lemma isEmpty_false s : Js.isEmpty s = false ↔ s ≠ "".
Proof. by destruct s. Qed.

Lemma sforallb_app p s t :
  Js.forallb p (s +:+ t) = Js.forallb p s && Js.forallb p t.
Proof.
  induction s as [|c s IH]; [done|].
  rewrite sapp_cons. simpl. by rewrite IH, andb_assoc.
Qed.

(** *** [trim] *)


Lemma trimStart_noLeadingSpace s : noLeadingSpace (Js.trimStart s).
Proof.
  induction s as [|c s IH]; [done|]. simpl.
  by destruct (Js.isSpace c) eqn:Hc.
Qed.

Lemma trimStart_id s : noLeadingSpace s → Js.trimStart s = s.
Proof. destruct s as [|c s]; [done|]. simpl. by intros ->. Qed.

Lemma trimEnd_noLeadingSpace s :
  noLeadingSpace s → noLeadingSpace (Js.trimEnd s).
Proof.
  destruct s as [|c s]; [done|]. simpl. intros Hc. by rewrite Hc.
Qed.

Lemma trimEnd_idemp s : Js.trimEnd (Js.trimEnd s) = Js.trimEnd s.
Proof.
  induction s as [|c s IH]; [done|]. simpl.
  destruct (Js.isSpace c && Js.isEmpty (Js.trimEnd s)) eqn:E; [done|].
  simpl. by rewrite IH, E.
Qed.

Lemma trim_idemp s : Js.trim (Js.trim s) = Js.trim s.
Proof.
  unfold Js.trim.
  rewrite (trimStart_id (Js.trimEnd _)).
  - apply trimEnd_idemp.
  - apply trimEnd_noLeadingSpace, trimStart_noLeadingSpace.
Qed.

Lemma trimStart_spaces s : Js.forallb Js.isSpace s = true → Js.trimStart s = "".
Proof.
  induction s as [|c s IH]; [done|]. simpl.
  intros [-> ?]%andb_true_iff. auto.
Qed.

Lemma trim_spaces s : Js.forallb Js.isSpace s = true → Js.trim s = "".
Proof. intros H. unfold Js.trim. by rewrite trimStart_spaces. Qed.

(** A string whose first and last characters are no white space is its
    own [trim]. *)
Lemma trimEnd_nospace s :
  Js.forallb (λ c, negb (Js.isSpace c)) s = true → Js.trimEnd s = s.
Proof.
  induction s as [|c s IH]; [done|]. simpl.
  intros [Hc ?]%andb_true_iff. rewrite IH by done.
  apply negb_true_iff in Hc. by rewrite Hc.
Qed.

Lemma trim_nospace s :
  Js.forallb (λ c, negb (Js.isSpace c)) s = true → Js.trim s = s.
Proof.
  intros H. unfold Js.trim. rewrite trimStart_id.
  - by apply trimEnd_nospace.
  - destruct s as [|c s]; [done|]. simpl in *.
    apply andb_true_iff in H as [Hc _]. by apply negb_true_iff.
Qed.

(** *** [span] and [stripPrefix] *)

Lemma stripPrefix_app s t : Js.stripPrefix s (s +:+ t) = Some t.
Proof.
  induction s as [|c s IH]; [done|].
  rewrite sapp_cons. simpl. by rewrite Ascii.eqb_refl.
Qed.

Lemma span_all p s t :
  Js.forallb p s = true →
  match t with String c _ => p c = false | EmptyString => True end →
  Js.span p (s +:+ t) = (s, t).
Proof.
  intros Hs Ht. induction s as [|c s IH].
  - rewrite sapp_nil_l. destruct t as [|c t]; [done|]. simpl. by rewrite Ht.
  - simpl in Hs. apply andb_true_iff in Hs as [Hc Hs].
    rewrite sapp_cons. simpl. by rewrite Hc, IH.
Qed.

End strings.

(** ** Loops that may throw *)

Lemma bind_Ok {A B} (r : result A) (k : A → result B) b :
  r ≫= k = Ok b ↔ ∃ a, r = Ok a ∧ k a = Ok b.
Proof.
  destruct r as [a|e]; simpl; split.
  - eauto.
  - by intros (? & [= <-] & ?).
  - done.
  - by intros (? & ? & ?).
Qed.

Lemma fmap_Ok {A B} (f : A → B) (r : result A) b :
  f <$> r = Ok b ↔ ∃ a, r = Ok a ∧ b = f a.
Proof.
  destruct r as [a|e]; simpl; split.
  - intros [= <-]. eauto.
  - by intros (? & [= <-] & ->).
  - done.
  - by intros (? & ? & ?).
Qed.

Section loops.
Context {A B : Type}.

Lemma mapM_Ok (f : A → result B) xs ys :
  mapM f xs = Ok ys ↔ Forall2 (λ x y, f x = Ok y) xs ys.
Proof.
  revert ys. induction xs as [|x xs IH]; intros ys; simpl.
  - split; [intros [= <-]; constructor | by inversion 1].
  - split.
    + intros (y & Hy & (ys' & Hys & [= <-])%bind_Ok)%bind_Ok.
      constructor; [done | by apply IH].
    + inversion 1 as [|? y ? ys' Hy Hys]; subst.
      apply IH in Hys. by rewrite Hy, Hys.
Qed.

Lemma mapMi_Ok (f : nat → A → result B) i xs ys :
  mapMi f i xs = Ok ys →
  length ys = length xs ∧
  ∀ j x, xs !! j = Some x → ∃ y, ys !! j = Some y ∧ f (i + j) x = Ok y.
Proof.
  revert i ys. induction xs as [|x xs IH]; intros i ys; simpl.
  - intros [= <-]. split; [done | by intros ? ? ?].
  - intros (y & Hy & (ys' & Hys & [= <-])%bind_Ok)%bind_Ok.
    destruct (IH _ _ Hys) as [Hlen Hnth]. split; [simpl; lia|].
    intros [|j] x'; simpl.
    + intros [= <-]. exists y. by rewrite Nat.add_0_r.
    + intros Hx. destruct (Hnth _ _ Hx) as (y' & ? & Hf).
      exists y'. split; [done|]. by rewrite Nat.add_succ_r.
Qed.

End loops.

(** What [columns.forEach] leaves under a key [k] of the row: what was there
    before when no column has that key, otherwise the value computed for
    the last column that has it. *)
Lemma forEachColumn_lookup f i cols (mapped row : gmap string string) k :
  forEachColumn f i cols mapped = Ok row →
  (row !! k = mapped !! k ∧ ∀ c, c ∈ cols → key c ≠ k)
  ∨ ∃ j c v, cols !! j = Some c ∧ key c = k ∧ f c (i + j) = Ok v
             ∧ row !! k = Some v
             ∧ ∀ j' c', j < j' → cols !! j' = Some c' → key c' ≠ k.
Proof.
  revert i mapped. induction cols as [|c cols IH]; intros i mapped; simpl.
  - intros [= <-]. left. split; [done|]. by intros ? ?%elem_of_nil.
  - intros (v & Hv & Hrest)%bind_Ok.
    destruct (IH _ _ Hrest) as [[Hrow Hno]|(j & c' & v' & Hj & Hk & Hf & Hrow & Hlast)].
    + destruct (decide (key c = k)) as [Hk|Hk].
      * right. exists 0, c, v. rewrite Nat.add_0_r.
        split_and!; [done..| |].
        { by rewrite Hrow, Hk, lookup_insert_eq. }
        intros [|j'] c'; [lia|]. simpl. intros _ Hc'.
        apply Hno. by eapply list_elem_of_lookup_2.
      * left. split.
        { by rewrite Hrow, lookup_insert_ne. }
        intros c' [->|?]%elem_of_cons; auto.
    + right. exists (S j), c', v'. rewrite Nat.add_succ_r.
      split_and!; [done..|].
      intros [|j'] c''; [lia|]. simpl. intros ? ?. eapply Hlast; [|done]. lia.
Qed.

(** ** CSV *)

Section csv.
Implicit Types (s t line rest : string) (values : list string).


Lemma plain_noQuote s : plain s → noQuote s.
Proof.
  unfold plain, noQuote. induction s as [|c s IH]; [done|]. simpl.
  intros [[-> _]%andb_true_iff ?]%andb_true_iff. auto.
Qed.

Lemma loop_open values current rest :
  parseCsvLoop values current false (String quote rest)
  = parseCsvLoop values current true rest.
Proof. reflexivity. Qed.

Lemma loop_doubled values current rest :
  parseCsvLoop values current true (String quote (String quote rest))
  = parseCsvLoop values (current +:+ String quote "") true rest.
Proof. reflexivity. Qed.

Lemma loop_close values current rest :
  match rest with String c _ => Ascii.eqb c quote = false | _ => True end →
  parseCsvLoop values current true (String quote rest)
  = parseCsvLoop values current false rest.
Proof. destruct rest as [|c rest]; simpl; [done|]. by intros ->. Qed.

Lemma loop_comma values current rest :
  parseCsvLoop values current false (String comma rest)
  = parseCsvLoop (values ++ [current]) "" false rest.
Proof. reflexivity. Qed.

(** Inside quotes every character but the quote is data. *)
Lemma loop_quoted values current s rest :
  noQuote s →
  parseCsvLoop values current true (s +:+ rest)
  = parseCsvLoop values (current +:+ s) true rest.
Proof.
  unfold noQuote. revert current.
  induction s as [|c s IH]; intros current; simpl.
  - by rewrite sapp_nil_l, sapp_nil_r.
  - intros [Hc Hs]%andb_true_iff. apply negb_true_iff in Hc.
    rewrite ?sapp_cons; simpl. rewrite Hc, andb_false_r.
    by rewrite IH, sapp_snoc.
Qed.

(** Outside quotes every character but quote and comma is data. *)
Lemma loop_plain values current s rest :
  plain s →
  parseCsvLoop values current false (s +:+ rest)
  = parseCsvLoop values (current +:+ s) false rest.
Proof.
  unfold plain. revert current.
  induction s as [|c s IH]; intros current; simpl.
  - by rewrite sapp_nil_l, sapp_nil_r.
  - intros [[Hc Hc']%andb_true_iff Hs]%andb_true_iff.
    apply negb_true_iff in Hc, Hc'.
    rewrite ?sapp_cons; simpl. rewrite Hc, Hc'. simpl.
    by rewrite IH, sapp_snoc.
Qed.

(** A prefix without quotes leaves the loop outside quotes, in a state
    that does not depend on what follows. *)
Lemma loop_noQuote values current s :
  noQuote s →
  ∃ values' current',
    ∀ rest, parseCsvLoop values current false (s +:+ rest)
            = parseCsvLoop values' current' false rest.
Proof.
  unfold noQuote. revert values current.
  induction s as [|c s IH]; intros values current; simpl.
  - by exists values, current.
  - intros [Hc Hs]%andb_true_iff. apply negb_true_iff in Hc.
    destruct (Ascii.eqb c comma) eqn:Hcomma.
    + destruct (IH (values ++ [current]) "" Hs) as (vs & cur & H).
      exists vs, cur. intros rest. rewrite ?sapp_cons; simpl.
      by rewrite ?Hc, ?Hcomma.
    + destruct (IH values (current +:+ String c "") Hs) as (vs & cur & H).
      exists vs, cur. intros rest. rewrite ?sapp_cons; simpl.
      by rewrite ?Hc, ?Hcomma.
Qed.

(** The loop always ends by pushing [current]. *)
Lemma loop_last values current inQuotes line :
  ∃ fields field, parseCsvLoop values current inQuotes line = fields ++ [field].
Proof.
  revert values current inQuotes.
  induction line as [|c line IH]; intros values current inQuotes.
  - by exists values, current.
  - simpl. destruct (Ascii.eqb c quote) eqn:Hq.
    + destruct inQuotes, line as [|c' line']; try apply IH.
      destruct (Ascii.eqb c' quote) eqn:Hq'; [|apply IH].
      apply Ascii.eqb_eq in Hq' as ->.
      rewrite <-loop_open. apply IH.
    + destruct (_ && _); apply IH.
Qed.

End csv.

Lemma forEachColumn_total f i cols (mapped : gmap string string) :
  (∀ c j, ∃ v, f c j = Ok v) →
  ∃ row, forEachColumn f i cols mapped = Ok row.
Proof.
  intros Hf. revert i mapped.
  induction cols as [|c cols IH]; intros i mapped; simpl; [by eauto|].
  destruct (Hf c i) as [v ->]. simpl. apply IH.
Qed.

Lemma csvRow_total cols line : ∃ row, csvRow cols line = Ok row.
Proof. apply forEachColumn_total. eauto. Qed.

(** What a CSV row holds under a key: the trimmed field of some column that
    has this key, and which no later column overwrites. *)
Lemma csvRow_lookup cols line row k v :
  csvRow cols line = Ok row → row !! k = Some v →
  ∃ j c, cols !! j = Some c ∧ key c = k
         ∧ v = Js.trim (default "" (parseCsvLine line !! j))
         ∧ ∀ j' c', j < j' → cols !! j' = Some c' → key c' ≠ k.
Proof.
  intros Hrow Hv.
  destruct (forEachColumn_lookup _ _ _ _ _ k Hrow)
    as [[Hk _]|(j & c & v' & Hj & Hk & [= <-] & Hv' & Hlast)].
  - by rewrite Hv, lookup_empty in Hk.
  - exists j, c. split_and!; [done..| |done]. congruence.
Qed.

Lemma parseCsvText_Ok text t :
  parseCsvText text = Ok t →
  ∃ header data,
    csvLines text = header :: data
    ∧ columns t = imap csvColumn (parseCsvLine header)
    ∧ Forall2 (λ line row, csvRow (columns t) line = Ok row) data (rows t).
Proof.
  unfold parseCsvText. destruct (csvLines text) as [|header data]; [done|].
  intros (rs & Hrs & [= <-])%bind_Ok. exists header, data.
  split_and!; [done..|]. by apply mapM_Ok.
Qed.


(** C3: the CSV text [a,"b,c",d / 1,"2,2",3] normalises to three columns
    labelled [a], [b,c], [d] and one data row holding "1", "2,2", "3" under
    them. In general a quoted field may contain commas, a doubled quote
    inside a quoted field is one quote character, a column without a field
    on the line gets the empty string, every row has a value for every
    column, and every value is trimmed. *)
Theorem C3_csv_normalisation :
  (∃ t row,
     parseCsvText csvExample = Ok t
     ∧ label <$> columns t = ["a"; "b,c"; "d"]
     ∧ rows t = [row]
     ∧ (λ c, row !! key c) <$> columns t = [Some "1"; Some "2,2"; Some "3"]
     ∧ size row = 3)
  ∧ (∀ before s after,
       plain before → noQuote s → plain after →
       parseCsvLine
         (before +:+ "," +:+ String quote s +:+ String quote ("," +:+ after))
       = [before; s; after])
  ∧ (∀ s t,
       noQuote s → noQuote t →
       parseCsvLine
         (String quote s +:+ String quote (String quote t) +:+ String quote "")
       = [s +:+ String quote t])
  ∧ (∀ cols line i c,
       cols !! i = Some c → length (parseCsvLine line) ≤ i →
       ∃ row, csvRow cols line = Ok row ∧ row !! key c = Some "")
  ∧ (∀ text t row,
       parseCsvText text = Ok t → row ∈ rows t →
       (∀ c, c ∈ columns t → is_Some (row !! key c))
       ∧ ∀ k v, row !! k = Some v → Js.trim v = v).
Proof.
  split_and!.
  - eexists _, _. split_and!; [by vm_compute|by vm_compute..].
  - intros before s after Hb Hs Ha. unfold parseCsvLine.
    rewrite loop_plain by done. rewrite !sapp_cons, !sapp_nil_l.
    rewrite (loop_comma [] before), loop_open, loop_quoted by done.
    rewrite loop_close by (by vm_compute).
    rewrite (loop_comma [before] s).
    rewrite <-(sapp_nil_r after), loop_plain by done.
    simpl. by rewrite sapp_nil_l, sapp_nil_r.
  - intros s t Hs Ht. unfold parseCsvLine.
    rewrite !sapp_cons, loop_open, loop_quoted by done.
    rewrite loop_doubled, sapp_nil_l, loop_quoted by done.
    rewrite loop_close by done. simpl.
    by rewrite sapp_assoc.
  - intros cols line i c Hi Hlen.
    destruct (csvRow_total cols line) as [row Hrow]. exists row.
    split; [done|].
    destruct (forEachColumn_lookup _ _ _ _ _ (key c) Hrow)
      as [[_ Hno]|(j & c' & v & Hj & Hk & [= <-] & Hv & Hlast)].
    + exfalso. eapply Hno; [|done]. by eapply list_elem_of_lookup_2.
    + rewrite Hv. destruct (decide (j < i)) as [Hlt|Hge].
      { exfalso. by eapply Hlast. }
      by rewrite (lookup_ge_None_2 (parseCsvLine line) j) by lia.
  - intros text t row (header & data & _ & _ & Hrows)%parseCsvText_Ok Hin.
    apply list_elem_of_lookup in Hin as [n Hn].
    destruct (Forall2_lookup_r _ _ _ _ _ Hrows Hn) as (line & _ & Hrow).
    split.
    + intros c Hc.
      destruct (forEachColumn_lookup _ _ _ _ _ (key c) Hrow)
        as [[_ Hno]|(j & c' & v & _ & _ & _ & -> & _)]; [|by eauto].
      exfalso. by eapply Hno.
    + intros k v Hv.
      destruct (csvRow_lookup _ _ _ _ _ Hrow Hv) as (j & c & _ & _ & -> & _).
      apply trim_idemp.
Qed.

Lemma C3_witness :
  parseCsvLine ("x," +:+ String quote "1,2" +:+ String quote (",y"))
  = ["x"; "1,2"; "y"]
  ∧ parseCsvLine
      (String quote "say " +:+ String quote (String quote "hi") +:+ String quote "")
    = ["say " +:+ String quote "hi"]
  ∧ (∃ row, csvRow (imap csvColumn ["a"; "b"]) "1" = Ok row
            ∧ row !! "b" = Some "")
  ∧ ∀ row, row ∈ [({[ "a" := "1" ]} : gmap string string)] →
           ∀ k v, row !! k = Some v → Js.trim v = v.
Proof.
  destruct C3_csv_normalisation as (_ & Hquoted & Hdoubled & Hmissing & Hrows).
  split_and!.
  - apply (Hquoted "x" "1,2" "y"); reflexivity.
  - apply (Hdoubled "say " "hi"); reflexivity.
  - apply (Hmissing (imap csvColumn ["a"; "b"]) "1" 1 (csvColumn 1 "b"));
      [reflexivity | vm_compute; lia].
  - intros row Hrow.
    apply (Hrows (String "a" (String LF "1"))
             {| columns := imap csvColumn ["a"];
                rows := [({[ "a" := "1" ]} : gmap string string)] |} row);
      [by vm_compute | done].
Defined.

(** C10: [parseCsvLine] is total: on every line, whatever its quotes, it
    returns a list with at least one field. A quote that is never closed
    makes the rest of the line, commas included, part of the current
    field. *)
Theorem C10_parseCsvLine_total :
  (∀ line, ∃ fields field, parseCsvLine line = fields ++ [field])
  ∧ (∀ line, 1 ≤ length (parseCsvLine line))
  ∧ (∀ values current rest,
       noQuote rest →
       parseCsvLoop values current true rest = values ++ [current +:+ rest])
  ∧ (∀ before rest,
       noQuote before → noQuote rest →
       ∃ fields field,
         parseCsvLine before = fields ++ [field]
         ∧ parseCsvLine (before +:+ String quote rest)
           = fields ++ [field +:+ rest]).
Proof.
  assert (∀ values current rest,
            noQuote rest →
            parseCsvLoop values current true rest
            = values ++ [current +:+ rest]) as Hopen.
  { intros values current rest Hrest.
    by rewrite <-(sapp_nil_r rest), loop_quoted, sapp_nil_r. }
  split_and!; [| |done|].
  - intros line. apply loop_last.
  - intros line. destruct (loop_last [] "" false line) as (fs & f & Hfs).
    unfold parseCsvLine. rewrite Hfs, length_app. simpl. lia.
  - intros before rest Hbefore Hrest. unfold parseCsvLine.
    destruct (loop_noQuote [] "" before Hbefore) as (fields & field & Hloop).
    exists fields, field. split.
    + by rewrite <-(sapp_nil_r before), Hloop.
    + by rewrite Hloop, loop_open, Hopen.
Qed.

Lemma C10_witness :
  parseCsvLoop ["x"] "y" true "1,2,3" = ["x"; "y1,2,3"]
  ∧ ∃ fields field,
      parseCsvLine "a,b" = fields ++ [field]
      ∧ parseCsvLine ("a,b" +:+ String quote "c,d,e")
        = fields ++ [field +:+ "c,d,e"].
Proof.
  destruct C10_parseCsvLine_total as (_ & _ & Hopen & Hline). split.
  - apply (Hopen ["x"] "y" "1,2,3"). reflexivity.
  - apply (Hline "a,b" "c,d,e"); reflexivity.
Defined.

(** ** Column keys *)

Lemma placeholderKey_inj i j : placeholderKey i = placeholderKey j → i = j.
Proof.
  unfold placeholderKey, Js.ofNat. intros H.
  apply (inj (String.app "column ")) in H.
  apply (inj pretty) in H. lia.
Qed.

Lemma headerKey_empty i header :
  normalizeHeader header = "" → headerKey i header = placeholderKey i.
Proof. unfold headerKey, orElse. by intros ->. Qed.

Lemma headerKey_nonempty i header :
  normalizeHeader header ≠ "" → headerKey i header = normalizeHeader header.
Proof. unfold headerKey, orElse. by destruct (normalizeHeader header). Qed.

(** No column gets the empty key. *)
Lemma headerKey_not_empty i header : headerKey i header ≠ "".
Proof.
  unfold headerKey, orElse.
  by destruct (normalizeHeader header) eqn:E.
Qed.

Lemma headerKey_NoDup headers :
  headersDistinct headers → NoDup (imap headerKey headers).
Proof.
  intros [Htext Hplace]. apply NoDup_alt. intros i j k.
  rewrite !list_lookup_imap.
  destruct (headers !! i) as [a|] eqn:Ha; [|done].
  destruct (headers !! j) as [b|] eqn:Hb; [|done].
  simpl. intros [= Hi] [= Hj]. destruct (decide (i = j)) as [|Hne]; [done|].
  exfalso. subst k.
  destruct (decide (normalizeHeader a = "")) as [Ea|Ea],
           (decide (normalizeHeader b = "")) as [Eb|Eb].
  - rewrite (headerKey_empty i a), (headerKey_empty j b) in Hj by done.
    by apply placeholderKey_inj in Hj.
  - rewrite (headerKey_empty i a), (headerKey_nonempty j b) in Hj by done.
    by eapply (Hplace j i b a).
  - rewrite (headerKey_nonempty i a), (headerKey_empty j b) in Hj by done.
    by eapply (Hplace i j a b).
  - rewrite (headerKey_nonempty i a), (headerKey_nonempty j b) in Hj by done.
    by eapply (Htext i j a b).
Qed.

Lemma imap_fmap_key {A} (f : nat → A → Column) (g : nat → A → string) xs :
  (∀ i x, key (f i x) = g i x) → key <$> imap f xs = imap g xs.
Proof.
  intros Hfg. apply list_eq. intros i.
  rewrite list_lookup_fmap, !list_lookup_imap.
  destruct (xs !! i); simpl; [by rewrite Hfg | done].
Qed.

Lemma mapColumn_key i column c :
  mapColumn i column = Ok c →
  ∃ header, columnHeader column = Ok header ∧ key c = headerKey i header.
Proof.
  unfold mapColumn. intros (header & Hheader & Hrest)%bind_Ok.
  exists header. split; [done|].
  apply bind_Ok in Hrest as (l & _ & Hrest).
  apply bind_Ok in Hrest as (text & _ & Hrest).
  apply bind_Ok in Hrest as (ty & _ & [= <-]). done.
Qed.

Lemma mapMi_mapColumn_keys i cols cs :
  mapMi mapColumn i cols = Ok cs →
  ∃ headers,
    mapM columnHeader cols = Ok headers
    ∧ key <$> cs = imap (λ j, headerKey (i + j)) headers.
Proof.
  revert i cs. induction cols as [|col cols IH]; intros i cs; simpl.
  - intros [= <-]. by exists [].
  - intros (c & Hc & (cs' & Hcs & [= <-])%bind_Ok)%bind_Ok.
    destruct (mapColumn_key _ _ _ Hc) as (header & Hheader & Hkey).
    destruct (IH _ _ Hcs) as (headers & Hheaders & Hkeys).
    exists (header :: headers). rewrite Hheader, Hheaders. simpl.
    split; [done|]. rewrite Hkey, Nat.add_0_r. f_equal.
    etrans; [exact Hkeys|].
    apply imap_ext. intros j ? _. simpl. f_equal. lia.
Qed.

(** The claim C1 as the spec states it fails: two headers that differ only
    in case get the same key, in each of the three shapes. *)
Lemma C1_counterexample :
  (∃ t, parseCsvText "Name,name" = Ok t ∧ ¬ NoDup (key <$> columns t))
  ∧ (∃ t, mapPayload Example.host
            (JObj [("table",
                    JObj [("cols", JArr [JObj [("label", JStr "Name")];
                                         JObj [("label", JStr "name")]]);
                          ("rows", JArr [])])])
          = Ok t
          ∧ ¬ NoDup (key <$> columns t))
  ∧ (∃ t, mapRecords Example.host
            (JObj [("Name", JStr "x"); ("name", JStr "y")])
            [JObj [("Name", JStr "x"); ("name", JStr "y")]]
          = Ok t
          ∧ ¬ NoDup (key <$> columns t)).
Proof.
  assert (¬ NoDup ["name"; "name"]) as Hdup.
  { intros [Hnotin _]%NoDup_cons. apply Hnotin. by left. }
  split_and!; eexists; (split; [by vm_compute | exact Hdup]).
Qed.

(** C1, amended: in each of the three shapes the key of the column at
    position [i] is the normalised header text, or the placeholder
    [column i+1] when that text is empty; nothing is appended on a
    collision. The keys of a table are pairwise distinct when its headers
    do not collide ([headersDistinct]). *)
Theorem C1_column_keys :
  (∀ headers, headersDistinct headers → NoDup (imap headerKey headers))
  ∧ (∀ text t,
       parseCsvText text = Ok t →
       ∃ header data,
         csvLines text = header :: data
         ∧ key <$> columns t = imap headerKey (parseCsvLine header))
  ∧ (∀ h firstRow items t,
       mapRecords h firstRow items = Ok t →
       ∃ names,
         objectKeys firstRow = Ok names
         ∧ key <$> columns t = imap headerKey names)
  ∧ (∀ h payload t,
       mapPayload h payload = Ok t →
       ∃ table cols headers,
         getProp payload "table" = Ok table
         ∧ arrayOrEmpty (optProp table "cols") = Ok cols
         ∧ mapM columnHeader cols = Ok headers
         ∧ key <$> columns t = imap headerKey headers).
Proof.
  split_and!.
  - apply headerKey_NoDup.
  - intros text t (header & data & Hlines & Hcols & _)%parseCsvText_Ok.
    exists header, data. split; [done|]. rewrite Hcols.
    by apply imap_fmap_key.
  - intros h firstRow items t. unfold mapRecords.
    intros (names & Hnames & (rs & _ & [= <-])%bind_Ok)%bind_Ok.
    exists names. split; [done|]. by apply imap_fmap_key.
  - intros h payload t. unfold mapPayload.
    intros (table & Htable & Hrest)%bind_Ok.
    apply bind_Ok in Hrest as (cols & Hcols & Hrest).
    apply bind_Ok in Hrest as (cs & Hcs & Hrest).
    apply bind_Ok in Hrest as (rws & _ & Hrest).
    apply bind_Ok in Hrest as (rs & _ & [= <-]).
    destruct (mapMi_mapColumn_keys _ _ _ Hcs) as (headers & Hheaders & Hkeys).
    by exists table, cols, headers.
Qed.

Lemma C1_witness :
  NoDup (imap headerKey ["Name"; ""; "Owner (lead)"; "??"])
  ∧ (∃ header data,
       csvLines "Name,,Owner" = header :: data
       ∧ key <$> imap csvColumn ["Name"; ""; "Owner"]
         = imap headerKey (parseCsvLine header)).
Proof.
  destruct C1_column_keys as (Hnodup & Hcsv & _ & _). split.
  - apply (Hnodup ["Name"; ""; "Owner (lead)"; "??"]). split.
    + intros [|[|[|[|i]]]] [|[|[|[|j]]]] a b [= <-] [= <-] Hij Ha;
        vm_compute in Ha; vm_compute; done.
    + intros [|[|[|[|i]]]] [|[|[|[|j]]]] a b [= <-] [= <-] Hb;
        vm_compute in Hb; vm_compute; done.
  - apply (Hcsv "Name,,Owner"
             {| columns := imap csvColumn ["Name"; ""; "Owner"];
                rows := [] |}).
    vm_compute. reflexivity.
Defined.

(** ** Typed cells *)

Lemma matchDate_Some year month day rest :
  isDigits year → isDigits month → isDigits day →
  match rest with String c _ => Js.isDigit c = false | EmptyString => True end →
  matchDate ("Date(" +:+ year +:+ "," +:+ month +:+ "," +:+ day +:+ rest)
  = Some (year, month, day).
Proof.
  intros [Hy Hy'] [Hm Hm'] [Hd Hd'] Hrest. unfold matchDate.
  rewrite (stripPrefix_app "Date("). cbn [mbind option_bind].
  rewrite (span_all _ year) by done.
  apply isEmpty_false in Hy as ->.
  rewrite (stripPrefix_app ","). cbn [mbind option_bind].
  rewrite (span_all _ month) by done.
  apply isEmpty_false in Hm as ->.
  rewrite (stripPrefix_app ","). cbn [mbind option_bind].
  rewrite (span_all _ day) by done.
  by apply isEmpty_false in Hd as ->.
Qed.

Lemma displayValue_None f :
  (∀ s, f = Some (JStr s) → Js.trim s = "") → displayValue f = None.
Proof.
  intros Hf. destruct f as [[| | |s| |]|]; simpl; try done.
  by rewrite (Hf s).
Qed.

(** The claim C4 as the spec states it fails: a display value of one space
    is not empty, and the raw value is shown instead of it. *)
Lemma C4_counterexample :
  ∃ cell f,
    optProp (Some cell) "f" = Some (JStr f) ∧ f ≠ ""
    ∧ formatCellValue Example.host (Some cell) (JStr "number") ≠ Ok f.
Proof.
  exists (JObj [("v", JNum "5"); ("f", JStr " ")]), " ".
  split_and!; [done..|]. by vm_compute.
Qed.

(** C4, amended: a cell that is absent or falsy formats to the empty
    string. Otherwise a display value that is a string with a character
    other than white space is used verbatim; without one, a raw value that
    is null or absent formats to the empty string; a string raw value of
    the form [Date(Y,M,D...)] in a column of type "date" formats to the
    locale's date for year Y, zero-based month M and day D; every other raw
    value is stringified. *)
Theorem C4_formatCellValue h cell columnType :
  (truthy cell = false → formatCellValue h cell columnType = Ok "")
  ∧ (truthy cell = true →
     (∀ f, optProp cell "f" = Some (JStr f) → Js.trim f ≠ "" →
           formatCellValue h cell columnType = Ok f)
     ∧ ((∀ f, optProp cell "f" = Some (JStr f) → Js.trim f = "") →
        ((optProp cell "v" = None ∨ optProp cell "v" = Some JNull) →
         formatCellValue h cell columnType = Ok "")
        ∧ (∀ year month day rest,
             columnType = JStr "date" →
             optProp cell "v"
             = Some (JStr ("Date(" +:+ year +:+ "," +:+ month +:+ ","
                             +:+ day +:+ rest)) →
             isDigits year → isDigits month → isDigits day →
             match rest with
             | String c _ => Js.isDigit c = false
             | EmptyString => True
             end →
             formatCellValue h cell columnType
             = Ok (toLocaleDateString h (Js.numberOfDigits 0 year)
                     (Js.numberOfDigits 0 month) (Js.numberOfDigits 0 day)))
        ∧ (∀ v, optProp cell "v" = Some v → v ≠ JNull →
                columnType ≠ JStr "date"
                ∨ (∀ s, v ≠ JStr s)
                ∨ (∃ s, v = JStr s ∧ matchDate s = None) →
                formatCellValue h cell columnType = toString v)))
  ∧ formatCellValue h (Some (JObj [("v", JStr "Date(2024,0,15)")]))
      (JStr "date")
    = Ok (toLocaleDateString h 2024 0 15).
Proof.
  split_and!.
  - unfold formatCellValue. by intros ->.
  - intros Hcell. unfold formatCellValue. rewrite Hcell. simpl. split.
    + intros f -> Hf. simpl. by apply isEmpty_false in Hf as ->.
    + intros Hnone. rewrite (displayValue_None _ Hnone). split_and!.
      * by intros [-> | ->].
      * intros year month day rest -> -> Hy Hm Hd Hrest.
        by rewrite String.eqb_refl, matchDate_Some.
      * intros v -> Hv Hother.
        destruct v as [| | |s| |]; try done;
          destruct columnType as [| | |t| |]; try done.
        destruct (String.eqb_spec t "date") as [->|_]; [|done].
        destruct Hother as [?|[Hs|(s' & [= <-] & ->)]]; [done| |done].
        by destruct (Hs s).
  - reflexivity.
Qed.

Lemma C4_witness :
  formatCellValue Example.host (Some (JObj [("v", JNum "7"); ("f", JStr "7.00")]))
    (JStr "number") = Ok "7.00"
  ∧ formatCellValue Example.host
      (Some (JObj [("v", JStr "Date(2024,11,31,8,30,0)"); ("f", JStr "  ")]))
      (JStr "date")
    = Ok "12/31/2024"
  ∧ formatCellValue Example.host (Some (JObj [("v", JBool true)]))
      (JStr "boolean")
    = Ok "true"
  ∧ formatCellValue Example.host (Some (JObj [("v", JNull)])) (JStr "string")
    = Ok ""
  ∧ formatCellValue Example.host None (JStr "string") = Ok "".
Proof.
  split_and!.
  - apply (C4_formatCellValue Example.host
             (Some (JObj [("v", JNum "7"); ("f", JStr "7.00")]))
             (JStr "number")); [reflexivity..|]. by vm_compute.
  - pose proof (C4_formatCellValue Example.host
             (Some (JObj [("v", JStr "Date(2024,11,31,8,30,0)");
                          ("f", JStr "  ")]))
             (JStr "date")) as (_ & H & _).
    destruct (H eq_refl) as (_ & Hraw).
    destruct Hraw as (_ & Hdate & _).
    { by intros f [= <-]. }
    apply (Hdate "2024" "11" "31" ",8,30,0)"); try done; by vm_compute.
  - pose proof (C4_formatCellValue Example.host
             (Some (JObj [("v", JBool true)])) (JStr "boolean")) as (_ & H & _).
    destruct (H eq_refl) as (_ & Hraw).
    destruct Hraw as (_ & _ & Hother); [done|].
    apply (Hother (JBool true)); [done..|]. by left.
  - pose proof (C4_formatCellValue Example.host
             (Some (JObj [("v", JNull)])) (JStr "string")) as (_ & H & _).
    destruct (H eq_refl) as (_ & Hraw).
    destruct Hraw as (Hnull & _); [done|].
    apply Hnull. by right.
  - pose proof (C4_formatCellValue Example.host None (JStr "string"))
      as (H & _).
    by apply H.
Defined.

(** ** The link resolver *)

Lemma matchAfter_here lits n text run :
  matchHere lits n text = Some run → matchAfter lits n text = Some run.
Proof. intros H. destruct text; simpl; by rewrite H. Qed.

Lemma isIdChar_slash : Js.isIdChar "/" = false.
Proof. reflexivity. Qed.

(** The path [/spreadsheets/d/ID/edit] gives back [ID]. *)
Lemma matchAfter_sheet_path id :
  Js.forallb Js.isIdChar id = true → 1 ≤ String.length id →
  matchAfter ["/spreadsheets/d/"] 1 ("/spreadsheets/d/" +:+ id +:+ "/edit")
  = Some id.
Proof.
  intros Hid Hlen. apply matchAfter_here. unfold matchHere. cbn [forOf].
  rewrite (stripPrefix_app "/spreadsheets/d/"). cbn [mbind option_bind].
  rewrite (span_all _ id) by done. cbn [fst].
  by apply Nat.leb_le in Hlen as ->.
Qed.

(** C5: an input that, once trimmed, consists of 30 or more characters
    among letters, digits, hyphen and underscore resolves to a sheet
    reference whose [sheetId] is that trimmed text. The host's URL parser
    is only asked for [https://docs.google.com/spreadsheets/d/ID/edit] and
    has to return its path. *)
Theorem C5_bare_identifier h input u :
  Js.forallb Js.isIdChar (Js.trim input) = true →
  30 ≤ String.length (Js.trim input) →
  URL_new h ("https://docs.google.com/spreadsheets/d/" +:+ Js.trim input
               +:+ "/edit") = Some u →
  pathname u = "/spreadsheets/d/" +:+ Js.trim input +:+ "/edit" →
  ∃ source,
    resolveLink h input = Ok source ∧ sheetId source = Js.trim input.
Proof.
  intros Hid Hlen Hurl Hpath.
  assert (Js.isEmpty (Js.trim input) = false) as Hne.
  { destruct (Js.trim input); [simpl in Hlen; lia | done]. }
  unfold resolveLink, parseGoogleSheetLink, sheetUrl, isIdOnly.
  rewrite Hne, Hid. apply Nat.leb_le in Hlen as Hlen'. rewrite Hlen', Hurl.
  cbn [andb mbind result_bind url raw]. unfold getSheetSource, extractSheetId.
  rewrite Hpath, matchAfter_sheet_path by (done || lia).
  unfold orElse at 1. rewrite Hne, Hne.
  eexists. split; [reflexivity|]. simpl. unfold orElse. by rewrite Hne.
Qed.

Lemma C5_witness :
  ∃ source,
    resolveLink Example.host "  1aBcDeFgHiJkLmNoPqRsTuVwXyZ_0123456789-abc  "
    = Ok source
    ∧ sheetId source = "1aBcDeFgHiJkLmNoPqRsTuVwXyZ_0123456789-abc".
Proof.
  apply (C5_bare_identifier Example.host
           "  1aBcDeFgHiJkLmNoPqRsTuVwXyZ_0123456789-abc  "
           (mkURL "docs.google.com"
              "/spreadsheets/d/1aBcDeFgHiJkLmNoPqRsTuVwXyZ_0123456789-abc/edit"
              [] ""
              "https://docs.google.com/spreadsheets/d/1aBcDeFgHiJkLmNoPqRsTuVwXyZ_0123456789-abc/edit"));
    [reflexivity | vm_compute; lia | reflexivity | reflexivity].
Defined.

(** C6: an input that is empty or only white space is refused with the
    message of an invalid link; the link [https://example.com/not-a-sheet],
    which the host parses to the host name [example.com], the path
    [/not-a-sheet] and no query, is refused with the message of an
    unsupported link. *)
Theorem C6_link_errors h :
  (∀ input,
     Js.forallb Js.isSpace input = true →
     parseGoogleSheetLink h input
     = Throw (Error "Please paste a Google Sheets link.")
     ∧ resolveLink h input = Throw (Error "Please paste a Google Sheets link.")
     ∧ errorKind (Error "Please paste a Google Sheets link.")
       = Some InvalidLinkError)
  ∧ (∀ u,
       URL_new h "https://example.com/not-a-sheet" = Some u →
       hostname u = "example.com" → pathname u = "/not-a-sheet" →
       searchParams u = [] →
       parseGoogleSheetLink h "https://example.com/not-a-sheet"
       = Throw (Error "Only Google Sheets links are supported.")
       ∧ resolveLink h "https://example.com/not-a-sheet"
         = Throw (Error "Only Google Sheets links are supported.")
       ∧ errorKind (Error "Only Google Sheets links are supported.")
         = Some UnsupportedLinkError).
Proof.
  split.
  - intros input Hspace.
    assert (parseGoogleSheetLink h input
            = Throw (Error "Please paste a Google Sheets link.")) as Hparse.
    { unfold parseGoogleSheetLink. by rewrite trim_spaces. }
    unfold resolveLink. by rewrite Hparse.
  - intros u Hurl Hhost Hpath Hparams.
    assert (parseGoogleSheetLink h "https://example.com/not-a-sheet"
            = Throw (Error "Only Google Sheets links are supported."))
      as Hparse.
    { unfold parseGoogleSheetLink.
      change (Js.trim "https://example.com/not-a-sheet")
        with "https://example.com/not-a-sheet".
      cbv beta zeta.
      change (Js.isEmpty "https://example.com/not-a-sheet") with false.
      change (isIdOnly "https://example.com/not-a-sheet") with false.
      change (hasHttpScheme "https://example.com/not-a-sheet") with true.
      cbv iota. rewrite Hurl. cbn [mbind result_bind].
      unfold extractSheetId. rewrite Hhost, Hpath, Hparams. reflexivity. }
    unfold resolveLink. by rewrite Hparse.
Qed.

Lemma C6_witness :
  resolveLink Example.host "   " = Throw (Error "Please paste a Google Sheets link.")
  ∧ resolveLink Example.host "" = Throw (Error "Please paste a Google Sheets link.")
  ∧ resolveLink Example.host "https://example.com/not-a-sheet"
    = Throw (Error "Only Google Sheets links are supported.").
Proof.
  destruct (C6_link_errors Example.host) as [Hblank Hother]. split_and!.
  - apply (Hblank "   "). reflexivity.
  - apply (Hblank ""). reflexivity.
  - apply (Hother (mkURL "example.com" "/not-a-sheet" [] ""
                     "https://example.com/not-a-sheet"));
      reflexivity.
Defined.

(** ** Facets *)

Lemma stripPrefix_Some p s rest : Js.stripPrefix p s = Some rest ↔ s = p +:+ rest.
Proof.
  revert s. induction p as [|a p IH]; intros s; simpl.
  - rewrite sapp_nil_l. split; congruence.
  - destruct s as [|b s]; [by rewrite sapp_cons|].
    rewrite sapp_cons. destruct (Ascii.eqb_spec a b) as [->|Hab].
    + rewrite IH. split; congruence.
    + split; [done | congruence].
Qed.

Lemma startsWith_spec p s : Js.startsWith p s = true ↔ ∃ rest, s = p +:+ rest.
Proof.
  unfold Js.startsWith. destruct (Js.stripPrefix p s) as [rest|] eqn:E.
  - apply stripPrefix_Some in E. split; eauto.
  - split; [done|]. intros [rest Hrest%stripPrefix_Some]. congruence.
Qed.

Lemma includes_unfold s sub :
  Js.includes s sub
  = Js.startsWith sub s
    || match s with EmptyString => false | String _ r => Js.includes r sub end.
Proof. by destruct s. Qed.

(** [includes] is the substring test. *)
Lemma includes_spec s sub :
  Js.includes s sub = true ↔ ∃ before after, s = before +:+ sub +:+ after.
Proof.
  split.
  - induction s as [|c s IH]; rewrite includes_unfold;
      intros [Hhere|Hlater]%orb_true_iff.
    + apply startsWith_spec in Hhere as [rest ->]. by exists "", rest.
    + done.
    + apply startsWith_spec in Hhere as [rest ->]. by exists "", rest.
    + destruct (IH Hlater) as (before & after & ->).
      by exists (String c before), after.
  - intros (before & after & ->).
    induction before as [|c before IH]; rewrite includes_unfold.
    + apply orb_true_iff. left. apply startsWith_spec. by exists after.
    + apply orb_true_iff. right. by rewrite sapp_cons.
Qed.

Section forOf.
Context {A B : Type} (body : A → option B).

Lemma forOf_None xs : (∀ x, x ∈ xs → body x = None) → forOf body xs = None.
Proof.
  induction xs as [|x xs IH]; intros Hxs; simpl; [done|].
  rewrite Hxs by left. apply IH. intros ? ?. apply Hxs. by right.
Qed.

Lemma forOf_first before x after y :
  (∀ a, a ∈ before → body a = None) → body x = Some y →
  forOf body (before ++ x :: after) = Some y.
Proof.
  intros Hbefore Hx. induction before as [|a before IH]; simpl.
  - by rewrite Hx.
  - rewrite Hbefore by left. apply IH. intros ? ?. apply Hbefore. by right.
Qed.

End forOf.

Lemma find_None {A} (p : A → bool) xs :
  (∀ x, x ∈ xs → p x = false) → List.find p xs = None.
Proof.
  induction xs as [|x xs IH]; intros Hxs; simpl; [done|].
  rewrite Hxs by left. apply IH. intros ? ?. apply Hxs. by right.
Qed.

Lemma find_first {A} (p : A → bool) before x after :
  (∀ a, a ∈ before → p a = false) → p x = true →
  List.find p (before ++ x :: after) = Some x.
Proof.
  intros Hbefore Hx. induction before as [|a before IH]; simpl.
  - by rewrite Hx.
  - rewrite Hbefore by left. apply IH. intros ? ?. apply Hbefore. by right.
Qed.

Lemma find_exists {A} (p : A → bool) xs x :
  x ∈ xs → p x = true → ∃ y, List.find p xs = Some y ∧ p y = true.
Proof.
  intros Hx Hp. induction xs as [|a xs IH]; [by apply elem_of_nil in Hx|].
  simpl. destruct (p a) eqn:Ha; [by eauto|].
  apply elem_of_cons in Hx as [->|Hx]; [congruence | by apply IH].
Qed.

Lemma exactMatch_spec alias column :
  exactMatch alias column = true ↔ key column = alias.
Proof. apply String.eqb_eq. Qed.

Lemma find_exact_None cols alias :
  (∀ c, c ∈ cols → key c ≠ alias) → List.find (exactMatch alias) cols = None.
Proof.
  intros H. apply find_None. intros c Hc.
  apply not_true_is_false. rewrite exactMatch_spec. by apply H.
Qed.

(** No alias of the list matches a column, as a substring in either
    direction (which includes the exact match). *)
Lemma findColumnKey_unmatched cols aliases :
  unmatched cols aliases → findColumnKey cols aliases = "".
Proof.
  intros Hno. unfold findColumnKey.
  rewrite forOf_None.
  - rewrite forOf_None; [done|].
    intros a (alias & -> & Halias)%list_elem_of_fmap.
    apply find_None. intros c Hc. by apply Hno.
  - intros a (alias & -> & Halias)%list_elem_of_fmap.
    apply find_exact_None. intros c Hc Hkey.
    specialize (Hno alias c Halias Hc). unfold partialMatch in Hno.
    apply orb_false_iff in Hno as [Hno _].
    rewrite Hkey in Hno.
    assert (Js.includes (normalizeHeader alias) (normalizeHeader alias) = true)
      as Hself; [|congruence].
    apply includes_spec. exists "", "". by rewrite sapp_nil_l, sapp_nil_r.
Qed.

Lemma findColumnKey_exact cols before alias after c :
  (∀ a c', a ∈ before → c' ∈ cols → key c' ≠ normalizeHeader a) →
  c ∈ cols → key c = normalizeHeader alias →
  findColumnKey cols (before ++ alias :: after) = normalizeHeader alias.
Proof.
  intros Hbefore Hc Hkey. unfold findColumnKey.
  destruct (find_exists (exactMatch (normalizeHeader alias)) cols c)
    as (y & Hfind & Hy); [done | by apply exactMatch_spec |].
  rewrite fmap_app, fmap_cons.
  rewrite (forOf_first _ _ _ _ y); [by apply exactMatch_spec in Hy| |done].
  intros a (a' & -> & Ha')%list_elem_of_fmap.
  apply find_exact_None. intros c' Hc'. by apply Hbefore.
Qed.

Lemma findColumnKey_partial before alias after cbefore c cafter :
  let aliases := before ++ alias :: after in
  let cols := cbefore ++ c :: cafter in
  (∀ a c', a ∈ aliases → c' ∈ cols → key c' ≠ normalizeHeader a) →
  (∀ a c', a ∈ before → c' ∈ cols →
           partialMatch (normalizeHeader a) c' = false) →
  (∀ c', c' ∈ cbefore → partialMatch (normalizeHeader alias) c' = false) →
  partialMatch (normalizeHeader alias) c = true →
  findColumnKey cols aliases = key c.
Proof.
  intros aliases cols Hexact Hbefore Hcbefore Hc. unfold findColumnKey.
  rewrite forOf_None.
  - unfold aliases. rewrite fmap_app, fmap_cons.
    rewrite (forOf_first _ _ _ _ c); [done| |by apply find_first].
    intros a (a' & -> & Ha')%list_elem_of_fmap.
    apply find_None. intros c' Hc'. by apply Hbefore.
  - intros a (a' & -> & Ha')%list_elem_of_fmap.
    apply find_exact_None. intros c' Hc'. by apply Hexact.
Qed.

(** C7: the facet resolver tries the exact matches of all aliases, in the
    declared order, before any substring match; the first alias that
    matches a column decides, and among the columns the first that matches
    it. An unmatched system role falls back to the key of the first column,
    an unmatched milestone role to the key of the second column, or of the
    first when there is no second; unmatched developer and manager roles
    stay empty. The header "Assigned Project Manager" normalises to the key
    "assigned project manager", and a table with such a column has it as
    its manager role. *)
Theorem C7_facet_resolver :
  (∀ alias column,
     partialMatch alias column = true
     ↔ (∃ before after, key column = before +:+ alias +:+ after)
       ∨ (∃ before after, alias = before +:+ key column +:+ after))
  ∧ (∀ cols before alias after c,
       (∀ a c', a ∈ before → c' ∈ cols → key c' ≠ normalizeHeader a) →
       c ∈ cols → key c = normalizeHeader alias →
       findColumnKey cols (before ++ alias :: after) = normalizeHeader alias)
  ∧ (∀ before alias after cbefore c cafter,
       (∀ a c', a ∈ before ++ alias :: after → c' ∈ cbefore ++ c :: cafter →
                key c' ≠ normalizeHeader a) →
       (∀ a c', a ∈ before → c' ∈ cbefore ++ c :: cafter →
                partialMatch (normalizeHeader a) c' = false) →
       (∀ c', c' ∈ cbefore → partialMatch (normalizeHeader alias) c' = false) →
       partialMatch (normalizeHeader alias) c = true →
       findColumnKey (cbefore ++ c :: cafter) (before ++ alias :: after)
       = key c)
  ∧ (∀ cols,
       (unmatched cols (system COLUMN_ALIASES) →
        system (determineFilterColumns cols) = default "" (key <$> cols !! 0))
       ∧ (unmatched cols (milestone COLUMN_ALIASES) →
          match cols !! 1 with
          | Some second =>
              key second ≠ "" →
              milestone (determineFilterColumns cols) = key second
          | None =>
              milestone (determineFilterColumns cols)
              = default "" (key <$> cols !! 0)
          end)
       ∧ (unmatched cols (developer COLUMN_ALIASES) →
          developer (determineFilterColumns cols) = "")
       ∧ (unmatched cols (manager COLUMN_ALIASES) →
          manager (determineFilterColumns cols) = ""))
  ∧ (∀ cols,
       (findColumnKey cols (system COLUMN_ALIASES) ≠ "" →
        system (determineFilterColumns cols)
        = findColumnKey cols (system COLUMN_ALIASES))
       ∧ (findColumnKey cols (milestone COLUMN_ALIASES) ≠ "" →
          milestone (determineFilterColumns cols)
          = findColumnKey cols (milestone COLUMN_ALIASES))
       ∧ developer (determineFilterColumns cols)
         = findColumnKey cols (developer COLUMN_ALIASES)
       ∧ manager (determineFilterColumns cols)
         = findColumnKey cols (manager COLUMN_ALIASES))
  ∧ normalizeHeader "Assigned Project Manager" = "assigned project manager"
  ∧ (∀ i, key (csvColumn i "Assigned Project Manager")
          = "assigned project manager")
  ∧ (∀ cols c,
       c ∈ cols → key c = "assigned project manager" →
       manager (determineFilterColumns cols) = "assigned project manager").
Proof.
  split_and!.
  - intros alias column. unfold partialMatch.
    by rewrite orb_true_iff, !includes_spec.
  - apply findColumnKey_exact.
  - intros before alias after cbefore c cafter.
    apply findColumnKey_partial.
  - intros cols. unfold determineFilterColumns. simpl. split_and!.
    + intros ->%findColumnKey_unmatched. unfold orElse, keyAtOr. simpl.
      destruct (cols !! 0) as [c0|]; simpl; [by destruct (key c0) | done].
    + intros ->%findColumnKey_unmatched. unfold orElse at 1. simpl.
      unfold keyAtOr. destruct (cols !! 1) as [c1|].
      * intros Hc1. unfold orElse. by destruct (key c1).
      * destruct (cols !! 0) as [c0|]; simpl; [|done].
        unfold orElse. by destruct (key c0).
    + by intros ->%findColumnKey_unmatched.
    + by intros ->%findColumnKey_unmatched.
  - intros cols. unfold determineFilterColumns.
    cbn [system milestone developer manager]. split_and!; [| |done..].
    + intros H. unfold orElse at 1.
      by destruct (findColumnKey cols (system COLUMN_ALIASES)).
    + intros H. unfold orElse at 1.
      by destruct (findColumnKey cols (milestone COLUMN_ALIASES)).
  - by vm_compute.
  - intros i. unfold csvColumn. simpl. by apply headerKey_nonempty.
  - intros cols c Hc Hkey. unfold determineFilterColumns.
    cbn [system milestone developer manager].
    apply (findColumnKey_exact cols [] "assigned project manager"
             ["project manager"] c); [|done..].
    by intros ? ? ?%elem_of_nil.
Qed.

Lemma C7_witness :
  findColumnKey (imap csvColumn ["Project Name (System)"; "Milestone"])
    ([] ++ "milestone" :: ["next milestone"])
  = "milestone"
  ∧ findColumnKey
      ([csvColumn 0 "Id"] ++ csvColumn 1 "Lead Developer"
         :: [csvColumn 2 "Team"])
      (["assigned developer"] ++ "developer" :: [])
    = "lead developer"
  ∧ system (determineFilterColumns (imap csvColumn ["Id"; "Status"])) = "id"
  ∧ milestone (determineFilterColumns (imap csvColumn ["Id"; "Status"]))
    = "status"
  ∧ milestone (determineFilterColumns (imap csvColumn ["Id"])) = "id"
  ∧ developer (determineFilterColumns (imap csvColumn ["Id"; "Status"])) = ""
  ∧ manager
      (determineFilterColumns
         (imap csvColumn ["Id"; "Assigned Project Manager"]))
    = "assigned project manager".
Proof.
  destruct C7_facet_resolver
    as (_ & Hexact & Hpartial & Hfallback & _ & _ & _ & Hmanager).
  assert (∀ names aliases,
            forallb (λ alias,
              forallb (λ c, negb (partialMatch (normalizeHeader alias) c))
                (imap csvColumn names)) aliases = true →
            unmatched (imap csvColumn names) aliases) as Hun.
  { intros names aliases Hall alias c Halias Hc.
    rewrite forallb_forall in Hall.
    apply list_elem_of_In, Hall in Halias. rewrite forallb_forall in Halias.
    apply list_elem_of_In, Halias in Hc. by apply negb_true_iff. }
  split_and!.
  - apply (Hexact (imap csvColumn ["Project Name (System)"; "Milestone"])
             [] "milestone" ["next milestone"] (csvColumn 1 "Milestone"));
      [by intros ? ? ?%elem_of_nil | by right; left | by vm_compute].
  - apply (Hpartial ["assigned developer"] "developer" []
             [csvColumn 0 "Id"] (csvColumn 1 "Lead Developer")
             [csvColumn 2 "Team"]).
    + intros a c' Ha Hc'.
      repeat (apply elem_of_cons in Ha as [->|Ha]);
        [..|by apply elem_of_nil in Ha];
        repeat (apply elem_of_cons in Hc' as [->|Hc']);
        try (by apply elem_of_nil in Hc'); by vm_compute.
    + intros a c' Ha Hc'.
      repeat (apply elem_of_cons in Ha as [->|Ha]);
        [..|by apply elem_of_nil in Ha];
        repeat (apply elem_of_cons in Hc' as [->|Hc']);
        try (by apply elem_of_nil in Hc'); by vm_compute.
    + intros c' Hc'.
      repeat (apply elem_of_cons in Hc' as [->|Hc']);
        try (by apply elem_of_nil in Hc'); by vm_compute.
    + by vm_compute.
  - destruct (Hfallback (imap csvColumn ["Id"; "Status"])) as (H & _).
    apply H, Hun. by vm_compute.
  - destruct (Hfallback (imap csvColumn ["Id"; "Status"])) as (_ & H & _).
    apply H; [apply Hun|]; by vm_compute.
  - destruct (Hfallback (imap csvColumn ["Id"])) as (_ & H & _).
    apply H, Hun. by vm_compute.
  - destruct (Hfallback (imap csvColumn ["Id"; "Status"])) as (_ & _ & H & _).
    apply H, Hun. by vm_compute.
  - apply (Hmanager (imap csvColumn ["Id"; "Assigned Project Manager"])
             (csvColumn 1 "Assigned Project Manager"));
      [by right; left | by vm_compute].
Defined.

(** ** Filters *)

Lemma rowPasses_spec h st query row :
  rowPasses h st query row
  = selects (filterSystem (filters st))
      (rowText h row (system (filterColumns st)))
    && selects (filterMilestone (filters st))
         (rowText h row (milestone (filterColumns st)))
    && rowMatchesSearch h st row query.
Proof.
  unfold rowPasses, selects.
  destruct (Js.isEmpty (filterSystem (filters st))),
           (String.eqb (rowText h row (system (filterColumns st))) _),
           (Js.isEmpty (filterMilestone (filters st))),
           (String.eqb (rowText h row (milestone (filterColumns st))) _);
    done.
Qed.

Lemma filter_ext_eq {A} (p q : A → bool) xs :
  (∀ x, p x = q x) → List.filter p xs = List.filter q xs.
Proof.
  intros Hpq. induction xs as [|x xs IH]; simpl; [done|].
  by rewrite Hpq, IH.
Qed.

Lemma filter_all {A} (p : A → bool) xs :
  (∀ x, p x = true) → List.filter p xs = xs.
Proof.
  intros Hp. induction xs as [|x xs IH]; simpl; [done|]. by rewrite Hp, IH.
Qed.


(** The claim C8 as the spec states it fails: the row has the selected
    system, no milestone is selected, and the search text filters it out. *)
Lemma C8_counterexample :
  facetRows Example.host searchingState = [{[ "system" := "Alpha" ]}]
  ∧ filteredRows (applyFilters Example.host searchingState) = []
  ∧ filteredRows (applyFilters Example.host searchingState)
    ≠ facetRows Example.host searchingState.
Proof. split_and!; by vm_compute. Qed.

(** C8, amended: the filtered rows are exactly the rows, in their order,
    whose value in the system column is the system selection, whose value
    in the milestone column is the milestone selection and which match the
    search text; a facet with the empty ("All") selection excludes no row,
    and so does an empty search text. With no search text the filtered rows
    are exactly the rows that the two facets select, and with nothing
    selected either they are all the rows. *)
Theorem C8_filtered_rows h st :
  let query := Js.toLowerCase (Js.trim (search (filters st))) in
  filteredRows (applyFilters h st)
  = List.filter (λ row, rowMatchesSearch h st row query) (facetRows h st)
  ∧ (∀ row,
       row ∈ filteredRows (applyFilters h st)
       ↔ row ∈ stateRows st
         ∧ (filterSystem (filters st) = ""
            ∨ rowText h row (system (filterColumns st))
              = filterSystem (filters st))
         ∧ (filterMilestone (filters st) = ""
            ∨ rowText h row (milestone (filterColumns st))
              = filterMilestone (filters st))
         ∧ rowMatchesSearch h st row query = true)
  ∧ (∀ row, rowMatchesSearch h st row "" = true)
  ∧ (Js.trim (search (filters st)) = "" →
     filteredRows (applyFilters h st) = facetRows h st)
  ∧ (Js.trim (search (filters st)) = "" →
     filterSystem (filters st) = "" → filterMilestone (filters st) = "" →
     filteredRows (applyFilters h st) = stateRows st)
  ∧ stateRows (applyFilters h st) = stateRows st
  ∧ filters (applyFilters h st) = filters st
  ∧ filterColumns (applyFilters h st) = filterColumns st.
Proof.
  intros query.
  assert (filteredRows (applyFilters h st)
          = List.filter (λ row, rowMatchesSearch h st row query)
              (facetRows h st)) as Hfiltered.
  { unfold applyFilters, facetRows. cbn [filteredRows]. fold query.
    induction (stateRows st) as [|row rs IH]; [done|].
    cbn [List.filter]. rewrite rowPasses_spec, IH.
    destruct (selects _ _ && selects _ _); [|done].
    cbn [List.filter andb]. by destruct (rowMatchesSearch h st row query). }
  split_and!; [done| | | | |done..].
  - intros row. unfold applyFilters. cbn [filteredRows]. fold query.
    rewrite list_elem_of_In, filter_In, <-list_elem_of_In, rowPasses_spec.
    rewrite !andb_true_iff. unfold selects.
    rewrite !orb_true_iff, !isEmpty_true, !String.eqb_eq. tauto.
  - done.
  - intros Hsearch. rewrite Hfiltered. unfold query. rewrite Hsearch.
    by apply filter_all.
  - intros Hsearch Hsystem Hmilestone. rewrite Hfiltered.
    unfold query. rewrite Hsearch, filter_all by done.
    unfold facetRows. rewrite Hsystem, Hmilestone. by apply filter_all.
Qed.

Lemma C8_witness :
  filteredRows (applyFilters Example.host idleState)
  = facetRows Example.host idleState
  ∧ filteredRows (applyFilters Example.host idleState) = stateRows idleState.
Proof.
  destruct (C8_filtered_rows Example.host idleState)
    as (_ & _ & _ & Hfacets & Hall & _).
  split; [by apply Hfacets | by apply Hall].
Defined.

(** ** Determinism *)

Lemma formatCellValue_locale h1 h2 cell columnType :
  (∀ y m d, toLocaleDateString h1 y m d = toLocaleDateString h2 y m d) →
  formatCellValue h1 cell columnType = formatCellValue h2 cell columnType.
Proof.
  intros Hlocale. unfold formatCellValue.
  destruct (truthy cell); [|done]. simpl.
  destruct (displayValue _); [done|].
  destruct (optProp cell "v") as [[| | |s| |]|]; try done.
  destruct columnType as [| | |t| |]; try done.
  destruct (if String.eqb t "date" then matchDate s else None)
    as [[[year month] day]|]; [|done].
  by rewrite Hlocale.
Qed.

Lemma forEachColumn_ext f g i cols (mapped : gmap string string) :
  (∀ c j, f c j = g c j) →
  forEachColumn f i cols mapped = forEachColumn g i cols mapped.
Proof.
  intros Hfg. revert i mapped.
  induction cols as [|c cols IH]; intros i mapped; simpl; [done|].
  rewrite Hfg. destruct (g c i); simpl; [apply IH | done].
Qed.

Lemma mapM_ext {A B} (f g : A → result B) xs :
  (∀ x, f x = g x) → mapM f xs = mapM g xs.
Proof.
  intros Hfg. induction xs as [|x xs IH]; simpl; [done|]. by rewrite Hfg, IH.
Qed.

Lemma mapPayload_columns h payload t :
  mapPayload h payload = Ok t →
  ∃ table cols,
    getProp payload "table" = Ok table
    ∧ arrayOrEmpty (optProp table "cols") = Ok cols
    ∧ mapMi mapColumn 0 cols = Ok (columns t).
Proof.
  unfold mapPayload. intros (table & Htable & Hrest)%bind_Ok.
  apply bind_Ok in Hrest as (cols & Hcols & Hrest).
  apply bind_Ok in Hrest as (cs & Hcs & Hrest).
  apply bind_Ok in Hrest as (rws & _ & Hrest).
  apply bind_Ok in Hrest as (rs & _ & [= <-]).
  by exists table, cols.
Qed.

(** C9: normalisation is deterministic. What a payload normalises to
    depends on the payload and, for the values of date cells, on the
    locale's date format, and on nothing else: two runs on the same
    payload, on hosts with the same date format, give the same table or the
    same exception, and the columns (keys, labels, types, in order) are the
    same on any two hosts. An array of records depends on the records and
    on what objects inherit; a CSV text normalises without reading the host
    at all, and its columns are decided by its header line alone. No clock
    and no random number enters any of the three. *)
Theorem C9_normalisation_deterministic :
  (∀ h1 h2 payload,
     (∀ y m d, toLocaleDateString h1 y m d = toLocaleDateString h2 y m d) →
     mapPayload h1 payload = mapPayload h2 payload)
  ∧ (∀ h1 h2 payload t1 t2,
       mapPayload h1 payload = Ok t1 → mapPayload h2 payload = Ok t2 →
       columns t1 = columns t2 ∧ length (rows t1) = length (rows t2))
  ∧ (∀ h1 h2 firstRow items,
       (∀ o name, inheritedText h1 o name = inheritedText h2 o name) →
       mapRecords h1 firstRow items = mapRecords h2 firstRow items)
  ∧ (∀ text t1 t2,
       parseCsvText text = Ok t1 → parseCsvText text = Ok t2 → t1 = t2)
  ∧ (∀ text1 text2 t1 t2 header data1 data2,
       parseCsvText text1 = Ok t1 → parseCsvText text2 = Ok t2 →
       csvLines text1 = header :: data1 → csvLines text2 = header :: data2 →
       columns t1 = columns t2).
Proof.
  split_and!.
  - intros h1 h2 payload Hlocale. unfold mapPayload.
    destruct (getProp payload "table") as [table|]; [|done]. simpl.
    destruct (arrayOrEmpty (optProp table "cols")) as [cols|]; [|done]. simpl.
    destruct (mapMi mapColumn 0 cols) as [cs|]; [|done]. simpl.
    destruct (arrayOrEmpty (optProp table "rows")) as [rws|]; [|done]. simpl.
    rewrite (mapM_ext (mapRow h1 cs) (mapRow h2 cs)); [done|].
    intros row. apply forEachColumn_ext. intros c j.
    destruct (getProp row "c"); [|done]. simpl.
    by apply formatCellValue_locale.
  - intros h1 h2 payload t1 t2 H1 H2.
    destruct (mapPayload_columns _ _ _ H1) as (table & cols & Ht & Hc & Hcs).
    destruct (mapPayload_columns _ _ _ H2) as (table' & cols' & Ht' & Hc' & Hcs').
    split; [congruence|].
    unfold mapPayload in H1, H2. rewrite Ht, Ht' in *. simpl in H1, H2.
    assert (table' = table) as -> by congruence.
    rewrite Hc in H1, H2. simpl in H1, H2.
    rewrite Hcs in H1. simpl in H1.
    assert (cols' = cols) as -> by congruence.
    rewrite Hcs' in H2. simpl in H2.
    destruct (arrayOrEmpty (optProp table "rows")) as [rws|]; [|done].
    simpl in H1, H2.
    apply bind_Ok in H1 as (rs1 & Hrs1%mapM_Ok & [= <-]).
    apply bind_Ok in H2 as (rs2 & Hrs2%mapM_Ok & [= <-]). simpl.
    apply Forall2_length in Hrs1, Hrs2. congruence.
  - intros h1 h2 firstRow items Hinherit. unfold mapRecords.
    destruct (objectKeys firstRow) as [names|]; [|done]. simpl.
    rewrite (mapM_ext (recordRow h1 _) (recordRow h2 (imap recordColumn names)));
      [done|].
    intros row. apply forEachColumn_ext. intros c j.
    unfold propText. destruct row; try done;
      (destruct (ownProp _ _); [done | by rewrite Hinherit]).
  - congruence.
  - intros text1 text2 t1 t2 header data1 data2.
    intros (? & ? & H1 & -> & _)%parseCsvText_Ok.
    intros (? & ? & H2 & -> & _)%parseCsvText_Ok. congruence.
Qed.

Lemma C9_witness :
  mapPayload Example.host datePayload = mapPayload Example.bareHost datePayload
  ∧ (∃ t1 t2,
       mapPayload Example.host datePayload = Ok t1
       ∧ mapPayload Example.hostDE datePayload = Ok t2
       ∧ columns t1 = columns t2 ∧ length (rows t1) = length (rows t2))
  ∧ mapRecords Example.bareHost (JObj [("Name", JStr "x")])
      [JObj [("Name", JStr "x")]; JObj [("name", JStr "y")]]
    = mapRecords Example.hostDE (JObj [("Name", JStr "x")])
        [JObj [("Name", JStr "x")]; JObj [("name", JStr "y")]]
  ∧ (∀ t1 t2,
       parseCsvText "a,b" = Ok t1 → parseCsvText "a,b" = Ok t2 → t1 = t2)
  ∧ (∀ t1 t2,
       parseCsvText (String "a" (String LF "1")) = Ok t1 →
       parseCsvText (String "a" (String LF "2")) = Ok t2 →
       columns t1 = columns t2).
Proof.
  destruct C9_normalisation_deterministic
    as (Hlocale & Hcols & Hrec & Hcsv & Hheader).
  split_and!.
  - apply (Hlocale Example.host Example.bareHost datePayload). reflexivity.
  - destruct (mapPayload Example.host datePayload) as [t1|] eqn:H1;
      [|by vm_compute in H1].
    destruct (mapPayload Example.hostDE datePayload) as [t2|] eqn:H2;
      [|by vm_compute in H2].
    exists t1, t2. split_and!; [done..| |];
      by apply (Hcols Example.host Example.hostDE datePayload t1 t2).
  - apply (Hrec Example.bareHost Example.hostDE). reflexivity.
  - apply (Hcsv "a,b").
  - intros t1 t2 H1 H2.
    apply (Hheader (String "a" (String LF "1")) (String "a" (String LF "2"))
             t1 t2 "a" ["1"] ["2"]); done.
Defined.

(** ** The transport cascade *)

(** Where a failure of the cascade comes from: it is the last [throw], or
    it is what the OpenSheet fallback threw, and that fallback only runs
    for a source with a tab name. *)
Lemma cascade_failure h w source e :
  fetchSheetMappedData h w source = Throw e →
  e = unavailable
  ∨ (sheet source ≠ "" ∧ openSheet h w source = Throw e).
Proof.
  unfold fetchSheetMappedData.
  destruct (catch (tryGviz h w source)); [done|].
  destruct (catch (tryJsonp h w source)); [done|].
  destruct (catch (tryCsv h w source)); [done|].
  destruct (openSheet h w source) as [[t|]|e'] eqn:Hopen; simpl.
  - done.
  - intros [= <-]. by left.
  - intros [= <-]. right. split; [|done].
    intros Hsheet. unfold openSheet, buildOpenSheetApiUrl in Hopen.
    by rewrite Hsheet in Hopen.
Qed.

(** C2, on the failing input: with no network, a source that has a tab name
    makes the cascade fail with the [TypeError] of the rejected OpenSheet
    request, which is not the error of an unavailable sheet; the same
    source without a tab name fails with that error. *)
Theorem C2_openSheet_error_escapes h :
  fetchSheetMappedData h Example.offline
    {| sheetId := "sheet"; gid := ""; sheet := "Sheet1" |}
  = Throw TypeError
  ∧ TypeError ≠ unavailable
  ∧ errorKind TypeError = None
  ∧ fetchSheetMappedData h Example.offline
      {| sheetId := "sheet"; gid := ""; sheet := "" |}
    = Throw unavailable
  ∧ errorKind unavailable = Some UnavailableError.
Proof. split_and!; done. Qed.

(** * Further properties *)

#[local] Set Warnings "-clear-no-such-hyp".

(** ** Headers are normalised to key texts *)

Lemma space_not_word c :
  Js.isLower c || Js.isDigit c = true → Ascii.eqb c " " = false.
Proof. destruct c as [[] [] [] [] [] [] [] []]; by vm_compute. Qed.

Lemma space_isSpace c : Ascii.eqb c " " = true → Js.isSpace c = true.
Proof. by intros ->%Ascii.eqb_eq. Qed.

Lemma word_not_isSpace c :
  Js.isLower c || Js.isDigit c = true → Js.isSpace c = false.
Proof. destruct c as [[] [] [] [] [] [] [] []]; by vm_compute. Qed.

Lemma replaceNonAlnum_class c :
  let c' := replaceNonAlnum c in
  Js.isLower c' || Js.isDigit c' || Js.isSpace c' = true.
Proof.
  unfold replaceNonAlnum.
  by destruct (Js.isLower c || Js.isDigit c || Js.isSpace c) eqn:E.
Qed.

Lemma map_forallb (f : ascii → ascii) (p : ascii → bool) s :
  (∀ c, p (f c) = true) → Js.forallb p (Js.map f s) = true.
Proof.
  intros Hf. induction s as [|c s IH]; [done|]. simpl. by rewrite Hf, IH.
Qed.

Lemma map_id (f : ascii → ascii) (p : ascii → bool) s :
  (∀ c, p c = true → f c = c) → Js.forallb p s = true → Js.map f s = s.
Proof.
  intros Hf. induction s as [|c s IH]; [done|]. simpl.
  intros [Hc Hs]%andb_true_iff. by rewrite (Hf c Hc), IH.
Qed.

Lemma collapseSpaces_spaced inRun s :
  Js.forallb (λ c, Js.isLower c || Js.isDigit c || Js.isSpace c) s = true →
  spaced inRun (collapseSpaces inRun s) = true.
Proof.
  revert inRun. induction s as [|c s IH]; intros inRun; [done|]. simpl.
  intros [Hc Hs]%andb_true_iff.
  destruct (Js.isSpace c) eqn:Hspace.
  - destruct inRun; [by apply IH|]. simpl. by apply IH.
  - rewrite orb_false_r in Hc. simpl.
    by rewrite (space_not_word c Hc), Hc, IH.
Qed.

Lemma spaced_weaken s : spaced true s = true → spaced false s = true.
Proof. destruct s as [|c s]; [done|]. simpl. by destruct (Ascii.eqb c " "). Qed.

Lemma trimStart_spaced inRun s :
  spaced inRun s = true → spaced true (Js.trimStart s) = true.
Proof.
  revert inRun. induction s as [|c s IH]; intros inRun; [done|]. simpl.
  destruct (Ascii.eqb c " ") eqn:Hc.
  - rewrite (space_isSpace c Hc). intros [_ Hs]%andb_true_iff. by eapply IH.
  - intros [Hword Hs]%andb_true_iff. rewrite (word_not_isSpace c Hword).
    simpl. by rewrite Hc, Hword, Hs.
Qed.

Lemma trimEnd_wordsOnly afterSpace s :
  spaced afterSpace s = true →
  Js.trimEnd s = "" ∨ wordsOnly afterSpace (Js.trimEnd s) = true.
Proof.
  revert afterSpace. induction s as [|c s IH]; intros afterSpace; [by left|].
  simpl. destruct (Ascii.eqb c " ") eqn:Hc.
  - rewrite (space_isSpace c Hc). intros [Hafter Hs]%andb_true_iff. simpl.
    destruct (IH true Hs) as [->|Hwords]; [by left|].
    destruct (Js.trimEnd s) as [|c' s'] eqn:E; [by left|]. right. simpl.
    rewrite Hc, Hafter. exact Hwords.
  - intros [Hword Hs]%andb_true_iff. rewrite (word_not_isSpace c Hword).
    right. simpl. rewrite Hc, Hword.
    by destruct (IH false Hs) as [-> | ->].
Qed.

Lemma normalizeHeader_isKeyText value : isKeyText (normalizeHeader value) = true.
Proof.
  unfold normalizeHeader, Js.trim at 1.
  set (u := Js.map replaceNonAlnum _).
  assert (spaced false (collapseSpaces false u) = true) as Hspaced.
  { apply collapseSpaces_spaced, map_forallb, replaceNonAlnum_class. }
  apply trimStart_spaced, trimEnd_wordsOnly in Hspaced as [->|Hwords]; [done|].
  unfold isKeyText. by rewrite Hwords, orb_true_r.
Qed.

Lemma wordsOnly_spaced afterSpace s :
  wordsOnly afterSpace s = true → spaced afterSpace s = true.
Proof.
  revert afterSpace. induction s as [|c s IH]; intros afterSpace; [done|].
  simpl. destruct (Ascii.eqb c " ").
  - intros [-> ?]%andb_true_iff. by apply IH.
  - intros [-> ?]%andb_true_iff. by apply IH.
Qed.

Lemma wordsOnly_trimEnd afterSpace s :
  wordsOnly afterSpace s = true → Js.trimEnd s = s.
Proof.
  revert afterSpace. induction s as [|c s IH]; intros afterSpace; [done|].
  simpl. destruct (Ascii.eqb c " ") eqn:Hc.
  - intros [_ Hs]%andb_true_iff. rewrite (IH true Hs).
    destruct s; [done|]. by rewrite andb_false_r.
  - intros [Hword Hs]%andb_true_iff.
    by rewrite (word_not_isSpace c Hword), (IH false Hs).
Qed.

Lemma wordsOnly_trim s : wordsOnly true s = true → Js.trim s = s.
Proof.
  intros Hs. unfold Js.trim. rewrite trimStart_id.
  - by eapply wordsOnly_trimEnd.
  - destruct s as [|c s]; [done|]. simpl in *.
    destruct (Ascii.eqb c " "); [done|].
    apply andb_true_iff in Hs as [Hword _]. by apply word_not_isSpace.
Qed.

Lemma spaced_chars afterSpace s :
  spaced afterSpace s = true →
  Js.forallb (λ c, Js.isLower c || Js.isDigit c || Ascii.eqb c " ") s = true.
Proof.
  revert afterSpace. induction s as [|c s IH]; intros afterSpace; [done|].
  simpl. destruct (Ascii.eqb c " ").
  - intros [_ Hs]%andb_true_iff. rewrite orb_true_r. by eapply IH.
  - intros [-> Hs]%andb_true_iff. simpl. by eapply IH.
Qed.

Lemma spaced_collapseSpaces afterSpace s :
  spaced afterSpace s = true → collapseSpaces afterSpace s = s.
Proof.
  revert afterSpace. induction s as [|c s IH]; intros afterSpace; [done|].
  simpl. destruct (Ascii.eqb c " ") eqn:Hc.
  - rewrite (space_isSpace c Hc). intros [Hafter Hs]%andb_true_iff.
    apply negb_true_iff in Hafter as ->. rewrite (IH true Hs).
    by apply Ascii.eqb_eq in Hc as ->.
  - intros [Hword Hs]%andb_true_iff.
    by rewrite (word_not_isSpace c Hword), (IH false Hs).
Qed.

Lemma keyChar_fixed c :
  Js.isLower c || Js.isDigit c || Ascii.eqb c " " = true →
  Js.lowerChar c = c ∧ replaceParens c = c ∧ replaceNonAlnum c = c.
Proof. destruct c as [[] [] [] [] [] [] [] []]; by vm_compute. Qed.

Lemma isKeyText_normalizeHeader s : isKeyText s = true → normalizeHeader s = s.
Proof.
  unfold isKeyText. intros [->%isEmpty_true|Hs]%orb_true_iff; [done|].
  unfold normalizeHeader. rewrite (wordsOnly_trim s Hs).
  pose proof (spaced_chars _ _ (wordsOnly_spaced _ _ Hs)) as Hchars.
  unfold Js.toLowerCase.
  rewrite (map_id Js.lowerChar _ s (λ c H, proj1 (keyChar_fixed c H)) Hchars).
  rewrite (map_id replaceParens _ s
             (λ c H, proj1 (proj2 (keyChar_fixed c H))) Hchars).
  rewrite (map_id replaceNonAlnum _ s
             (λ c H, proj2 (proj2 (keyChar_fixed c H))) Hchars).
  rewrite spaced_collapseSpaces
    by by apply spaced_weaken, wordsOnly_spaced.
  by apply wordsOnly_trim.
Qed.

(** X1: whatever the header, its normalised text is empty or made of words
    of lower-case letters and digits with single spaces between them and
    none at either end; normalising such a text changes nothing, so
    [normalizeHeader] is idempotent. *)
Theorem normalizeHeader_normal_form :
  (∀ value, isKeyText (normalizeHeader value) = true)
  ∧ (∀ s, isKeyText s = true → normalizeHeader s = s)
  ∧ (∀ value,
       normalizeHeader (normalizeHeader value) = normalizeHeader value).
Proof.
  split_and!.
  - apply normalizeHeader_isKeyText.
  - apply isKeyText_normalizeHeader.
  - intros value. apply isKeyText_normalizeHeader, normalizeHeader_isKeyText.
Qed.

Lemma normalizeHeader_normal_form_witness :
  normalizeHeader "next milestone 2" = "next milestone 2".
Proof.
  destruct normalizeHeader_normal_form as (_ & Hfixed & _).
  apply (Hfixed "next milestone 2"). reflexivity.
Defined.

(** ** Tables are well formed *)

Lemma pretty_N_go_digits x s :
  Js.forallb Js.isDigit s = true → Js.forallb Js.isDigit (pretty_N_go x s) = true.
Proof.
  revert s. induction (N.lt_wf_0 x) as [x _ IH]; intros s Hs.
  destruct (decide (x = 0)%N) as [->|Hx]; [by rewrite pretty_N_go_0|].
  rewrite pretty_N_go_step by lia. apply IH.
  - apply N.div_lt; lia.
  - simpl. rewrite Hs, andb_true_r.
    unfold pretty_N_char. by repeat case_match.
Qed.

Lemma pretty_N_go_not_empty x s : s ≠ "" → pretty_N_go x s ≠ "".
Proof.
  revert s. induction (N.lt_wf_0 x) as [x _ IH]; intros s Hs.
  destruct (decide (x = 0)%N) as [->|Hx]; [by rewrite pretty_N_go_0|].
  rewrite pretty_N_go_step by lia. apply IH; [apply N.div_lt; lia | done].
Qed.

(** [`${n}`] is a non-empty string of digits. *)
Lemma ofNat_digits n : isDigits (Js.ofNat n).
Proof.
  unfold Js.ofNat, pretty, pretty_nat, pretty, pretty_N.
  destruct (decide (N.of_nat n = 0)%N) as [_|Hn]; [done|]. split.
  - rewrite pretty_N_go_step by lia. by apply pretty_N_go_not_empty.
  - by apply pretty_N_go_digits.
Qed.

Lemma digits_wordsOnly afterSpace s :
  isDigits s → wordsOnly afterSpace s = true.
Proof.
  intros [Hne Hs]. destruct s as [|c s]; [done|]. clear Hne.
  revert afterSpace c Hs. induction s as [|c' s IH]; intros afterSpace c.
  - simpl. rewrite andb_true_r. intros Hc.
    assert (Js.isLower c || Js.isDigit c = true) as Hword
      by (by rewrite Hc, orb_true_r).
    by rewrite (space_not_word c Hword), Hword.
  - intros [Hc Hs]%andb_true_iff.
    assert (Js.isLower c || Js.isDigit c = true) as Hword
      by (by rewrite Hc, orb_true_r).
    change (wordsOnly afterSpace (String c (String c' s)))
      with (if Ascii.eqb c " "
            then negb afterSpace && wordsOnly true (String c' s)
            else (Js.isLower c || Js.isDigit c)
                 && wordsOnly false (String c' s)).
    rewrite (space_not_word c Hword), Hword. by apply IH.
Qed.

Lemma placeholderKey_isKeyText i : isKeyText (placeholderKey i) = true.
Proof.
  unfold placeholderKey, isKeyText.
  change ("column " +:+ ?d)
    with (String "c" (String "o" (String "l" (String "u" (String "m"
            (String "n" (String " " d))))))).
  simpl. by apply digits_wordsOnly, ofNat_digits.
Qed.

(** The key of a column is a key text, and never empty. *)
Lemma headerKey_isKeyText i header :
  headerKey i header ≠ "" ∧ isKeyText (headerKey i header) = true.
Proof.
  split; [apply headerKey_not_empty|].
  destruct (decide (normalizeHeader header = "")) as [E|E].
  - rewrite headerKey_empty by done. apply placeholderKey_isKeyText.
  - rewrite headerKey_nonempty by done. apply normalizeHeader_isKeyText.
Qed.

Lemma forEachColumn_dom f i cols (mapped row : gmap string string) :
  forEachColumn f i cols mapped = Ok row →
  dom row = (list_to_set (key <$> cols) : gset string) ∪ dom mapped.
Proof.
  revert i mapped. induction cols as [|c cols IH]; intros i mapped; simpl.
  - intros [= <-]. set_solver.
  - intros (v & _ & Hrest)%bind_Ok. rewrite (IH _ _ Hrest), dom_insert_L.
    set_solver.
Qed.

Lemma rows_dom {A} (f : A → result (gmap string string)) cols xs rs :
  (∀ x row, f x = Ok row →
            dom row = (list_to_set (key <$> cols) : gset string)) →
  mapM f xs = Ok rs →
  Forall (λ row : gmap string string,
            dom row = (list_to_set (key <$> cols) : gset string)) rs.
Proof.
  intros Hf Hrs%mapM_Ok. induction Hrs as [|x row xs rs Hx _ IH]; [done|].
  constructor; [by eapply Hf | done].
Qed.

Lemma keys_wellFormed cols headers :
  key <$> cols = imap headerKey headers →
  Forall (λ c, key c ≠ "" ∧ isKeyText (key c) = true) cols.
Proof.
  intros Hkeys. apply Forall_lookup. intros j c Hc.
  assert ((key <$> cols) !! j = Some (key c)) as Hj
    by (by rewrite list_lookup_fmap, Hc).
  rewrite Hkeys, list_lookup_imap in Hj.
  destruct (headers !! j) as [header|]; [|done].
  injection Hj as <-. apply headerKey_isKeyText.
Qed.

Lemma parseCsvText_wellFormed text t :
  parseCsvText text = Ok t → wellFormedTable (columns t) (rows t).
Proof.
  intros Ht. destruct (parseCsvText_Ok _ _ Ht) as (header & data & _ & Hcols & _).
  split.
  - apply (keys_wellFormed _ (parseCsvLine header)). rewrite Hcols.
    by apply imap_fmap_key.
  - unfold parseCsvText in Ht. destruct (csvLines text); [done|].
    apply bind_Ok in Ht as (rs & Hrs & [= <-]). simpl.
    eapply rows_dom; [|exact Hrs].
    intros line row Hrow%forEachColumn_dom. rewrite Hrow. set_solver.
Qed.

Lemma mapRecords_wellFormed h firstRow items t :
  mapRecords h firstRow items = Ok t → wellFormedTable (columns t) (rows t).
Proof.
  unfold mapRecords.
  intros (names & _ & (rs & Hrs & [= <-])%bind_Ok)%bind_Ok. simpl. split.
  - apply (keys_wellFormed _ names). by apply imap_fmap_key.
  - eapply rows_dom; [|exact Hrs].
    intros line row Hrow%forEachColumn_dom. rewrite Hrow. set_solver.
Qed.

Lemma mapPayload_wellFormed h payload t :
  mapPayload h payload = Ok t → wellFormedTable (columns t) (rows t).
Proof.
  unfold mapPayload. intros (table & _ & Hrest)%bind_Ok.
  apply bind_Ok in Hrest as (cols & _ & Hrest).
  apply bind_Ok in Hrest as (cs & Hcs & Hrest).
  apply bind_Ok in Hrest as (rws & _ & Hrest).
  apply bind_Ok in Hrest as (rs & Hrs & [= <-]). simpl. split.
  - destruct (mapMi_mapColumn_keys _ _ _ Hcs) as (headers & _ & Hkeys).
    by apply (keys_wellFormed _ headers).
  - eapply rows_dom; [|exact Hrs].
    intros line row Hrow%forEachColumn_dom. rewrite Hrow. set_solver.
Qed.

(** The tables of the cascade are tables of the three normalisers. *)
Lemma cascade_origin h w source t :
  fetchSheetMappedData h w source = Ok t →
  (∃ payload, mapPayload h payload = Ok t)
  ∨ (∃ body, parseCsvText body = Ok t)
  ∨ (∃ firstRow items, mapRecords h firstRow items = Ok t).
Proof.
  unfold fetchSheetMappedData.
  destruct (catch (tryGviz h w source)) as [t1|] eqn:H1.
  { intros [= ->]. left. unfold catch, tryGviz in H1.
    destruct (fetch w _) as [response|]; [|done]. simpl in H1.
    destruct (ok response); [|done]. simpl in H1.
    destruct (text response) as [body|]; [|done]. simpl in H1.
    destruct (parseGvizResponse h body) as [payload|]; [|done]. simpl in H1.
    destruct (truthy _); [|done].
    destruct (mapPayload h payload) as [t'|] eqn:Hmap; [|done].
    injection H1 as ->. eauto. }
  destruct (catch (tryJsonp h w source)) as [t2|] eqn:H2.
  { intros [= ->]. left. unfold catch, tryJsonp in H2.
    destruct (fetchSheetPayloadWithJsonp h w source) as [payload|]; [|done].
    simpl in H2. destruct (truthy _); [|done].
    destruct (mapPayload h _) as [t'|] eqn:Hmap; [|done].
    injection H2 as ->. eauto. }
  destruct (catch (tryCsv h w source)) as [t3|] eqn:H3.
  { intros [= ->]. right. left. unfold catch, tryCsv in H3.
    destruct (fetch w _) as [response|]; [|done]. simpl in H3.
    destruct (ok response); [|done].
    destruct (text response) as [body|]; [|done]. simpl in H3.
    destruct (parseCsvText body) as [t'|] eqn:Hcsv; [|done].
    injection H3 as ->. eauto. }
  intros (found & Hopen & Hfound)%bind_Ok. destruct found as [t'|]; [|done].
  injection Hfound as ->. right. right. unfold openSheet in Hopen.
  destruct (Js.isEmpty _); [done|].
  destruct (fetch w _) as [response|]; [|done]. simpl in Hopen.
  destruct (ok response); [|done].
  destruct (responseJson h response) as [rs|]; [|done]. simpl in Hopen.
  destruct rs as [| | | |[|firstRow rest]|]; try done.
  destruct (mapRecords h firstRow _) as [t'|] eqn:Hrec; [|done].
  injection Hopen as ->. eauto.
Qed.

(** X2: in every table that a normaliser returns, of whichever shape, and
    so in every table that the cascade returns, each column has a key that
    is not empty and is a key text, and each row has a value under the key
    of every column and under no other key. *)
Theorem tables_wellFormed :
  (∀ h payload t,
     mapPayload h payload = Ok t → wellFormedTable (columns t) (rows t))
  ∧ (∀ text t,
       parseCsvText text = Ok t → wellFormedTable (columns t) (rows t))
  ∧ (∀ h firstRow items t,
       mapRecords h firstRow items = Ok t →
       wellFormedTable (columns t) (rows t))
  ∧ (∀ h w source t,
       fetchSheetMappedData h w source = Ok t →
       wellFormedTable (columns t) (rows t)).
Proof.
  split_and!.
  - apply mapPayload_wellFormed.
  - apply parseCsvText_wellFormed.
  - apply mapRecords_wellFormed.
  - intros h w source t
      [[? H]|[[? H]|(? & ? & H)]]%cascade_origin.
    + by eapply mapPayload_wellFormed.
    + by eapply parseCsvText_wellFormed.
    + by eapply mapRecords_wellFormed.
Qed.

Lemma tables_wellFormed_witness :
  (∃ t, mapPayload Example.host datePayload = Ok t
        ∧ wellFormedTable (columns t) (rows t))
  ∧ (∃ t, parseCsvText csvExample = Ok t
          ∧ wellFormedTable (columns t) (rows t)).
Proof.
  destruct tables_wellFormed as (Htyped & Hcsv & _ & _). split.
  - destruct (mapPayload Example.host datePayload) as [t|] eqn:Ht;
      [|by vm_compute in Ht].
    exists t. split; [done|]. by apply (Htyped Example.host datePayload).
  - destruct (parseCsvText csvExample) as [t|] eqn:Ht;
      [|by vm_compute in Ht].
    exists t. split; [done|]. by apply (Hcsv csvExample).
Defined.

(** ** CSV texts *)

Lemma mapM_total {A B} (f : A → result B) xs :
  (∀ x, ∃ y, f x = Ok y) → ∃ ys, mapM f xs = Ok ys.
Proof.
  intros Hf. induction xs as [|x xs [ys IH]]; simpl; [by eauto|].
  destruct (Hf x) as [y ->]. simpl. rewrite IH. simpl. eauto.
Qed.

Lemma splitLines_forallb p current text :
  Js.forallb p current = true → Js.forallb p text = true →
  Forall (λ line, Js.forallb p line = true) (splitLines current text).
Proof.
  revert current. induction text as [|c text IH]; intros current Hcur Htext.
  - by constructor.
  - simpl in Htext. apply andb_true_iff in Htext as [Hc Htext]. simpl.
    assert (Js.forallb p (current +:+ String c "") = true) as Hsnoc.
    { rewrite sforallb_app. simpl. by rewrite Hcur, Hc. }
    destruct (Ascii.eqb c LF); [constructor; [done | by apply IH]|].
    destruct text as [|c' text']; [by apply IH|].
    destruct (Ascii.eqb c CR && Ascii.eqb c' LF) eqn:Hcrlf; [|by apply IH].
    apply andb_true_iff in Hcrlf as [_ Hc'].
    constructor; [done|].
    specialize (IH "" eq_refl Htext). simpl in IH. rewrite Hc' in IH.
    by apply Forall_cons in IH as [_ IH].
Qed.

Lemma csvLines_blank text :
  Js.forallb Js.isSpace text = true → csvLines text = [].
Proof.
  intros Htext. unfold csvLines, stripBom.
  pose proof (splitLines_forallb Js.isSpace "" text eq_refl Htext) as Hlines.
  induction Hlines as [|line ls Hline _ IH]; [done|]. simpl.
  by rewrite (trim_spaces line Hline).
Qed.

(** X3: [parseCsvText] throws nothing but "No rows found in CSV export.",
    and throws it exactly when the text has no line with a character other
    than white space, as a text of white space and line breaks only has
    none. Otherwise the table has at least one column, one column for each
    field of the first such line, and one row for each further one. *)
Theorem parseCsvText_shape :
  (∀ text e,
     parseCsvText text = Throw e ↔
     e = Error "No rows found in CSV export." ∧ csvLines text = [])
  ∧ (∀ text,
       Js.forallb Js.isSpace text = true →
       parseCsvText text = Throw (Error "No rows found in CSV export."))
  ∧ (∀ text t,
       parseCsvText text = Ok t →
       columns t ≠ []
       ∧ ∃ header data,
           csvLines text = header :: data
           ∧ length (columns t) = length (parseCsvLine header)
           ∧ length (rows t) = length data).
Proof.
  split_and!.
  - intros text e. unfold parseCsvText.
    destruct (csvLines text) as [|header data].
    + split; [by intros [= <-] | by intros [-> _]].
    + destruct (mapM_total (csvRow (imap csvColumn (parseCsvLine header))) data)
        as [rs ->]; [intros line; apply csvRow_total|].
      simpl. split; [done | by intros [_ ?]].
  - intros text Hblank. unfold parseCsvText. by rewrite csvLines_blank.
  - intros text t (header & data & Hlines & Hcols & Hrows)%parseCsvText_Ok.
    assert (length (columns t) = length (parseCsvLine header)) as Hlen
      by (by rewrite Hcols, length_imap).
    split.
    + destruct (loop_last [] "" false header) as (fs & f & Hfs).
      unfold parseCsvLine in Hlen. rewrite Hfs, length_app in Hlen.
      simpl in Hlen. intros E. rewrite E in Hlen. simpl in Hlen. lia.
    + exists header, data. split_and!; [done..|].
      symmetry. by eapply Forall2_length.
Qed.

Lemma parseCsvText_shape_witness :
  parseCsvText (String LF (" " +:+ String CR (String LF "  ")))
  = Throw (Error "No rows found in CSV export.")
  ∧ (∃ t, parseCsvText csvExample = Ok t ∧ columns t ≠ []).
Proof.
  destruct parseCsvText_shape as (_ & Hblank & Hshape). split.
  - apply (Hblank (String LF (" " +:+ String CR (String LF "  ")))).
    reflexivity.
  - destruct (parseCsvText csvExample) as [t|] eqn:Ht; [|by vm_compute in Ht].
    exists t. split; [done|]. by apply (Hshape csvExample t).
Defined.

Lemma loop_fields values field fields :
  Forall plain (field :: fields) →
  parseCsvLoop values "" false (String.concat "," (field :: fields))
  = values ++ field :: fields.
Proof.
  revert values field. induction fields as [|g fields IH]; intros values field.
  - intros [Hf _]%Forall_cons. simpl.
    by rewrite <-(sapp_nil_r field), loop_plain, sapp_nil_l, sapp_nil_r.
  - intros [Hf Hrest]%Forall_cons.
    change (String.concat "," (field :: g :: fields))
      with (field +:+ "," +:+ String.concat "," (g :: fields)).
    rewrite loop_plain by done. rewrite sapp_nil_l, sapp_cons, sapp_nil_l.
    rewrite (loop_comma values field), IH by done.
    by rewrite <-app_assoc.
Qed.

Lemma loop_csvQuote values current field rest :
  match rest with String c _ => Ascii.eqb c quote = false | _ => True end →
  parseCsvLoop values current true
    (replaceAll quote (String quote (String quote "")) field
       +:+ String quote rest)
  = parseCsvLoop values (current +:+ field) false rest.
Proof.
  intros Hrest. revert current.
  induction field as [|c field IH]; intros current.
  - simpl replaceAll. rewrite sapp_nil_l, sapp_nil_r. by apply loop_close.
  - simpl replaceAll. destruct (Ascii.eqb c quote) eqn:Hc.
    + apply Ascii.eqb_eq in Hc as ->.
      rewrite !sapp_cons, sapp_nil_l, loop_doubled, IH.
      by rewrite sapp_snoc.
    + rewrite sapp_cons.
      rewrite <-(sapp_nil_l (String c (_ +:+ _))).
      change ("" +:+ String c ?r) with (String c "" +:+ r).
      rewrite (loop_quoted values current (String c "")), IH.
      * by rewrite sapp_snoc.
      * unfold noQuote. simpl. by rewrite Hc.
Qed.

Lemma loop_quoted_fields values field fields :
  parseCsvLoop values "" false
    (String.concat "," (csvQuote <$> field :: fields))
  = values ++ field :: fields.
Proof.
  revert values field. induction fields as [|g fields IH]; intros values field.
  - change (String.concat "," (csvQuote <$> [field])) with (csvQuote field).
    unfold csvQuote. rewrite loop_open, loop_csvQuote by done.
    simpl. by rewrite sapp_nil_l.
  - change (String.concat "," (csvQuote <$> field :: g :: fields))
      with (csvQuote field +:+ ","
              +:+ String.concat "," (csvQuote <$> g :: fields)).
    unfold csvQuote at 1. rewrite sapp_cons, loop_open, sapp_assoc.
    rewrite sapp_cons, sapp_nil_l, loop_csvQuote by done.
    rewrite sapp_cons, !sapp_nil_l, (loop_comma values), IH.
    by rewrite <-app_assoc.
Qed.

(** X4: [parseCsvLine] reads back what a CSV writer writes. Fields without
    quote and comma, joined by commas, parse to exactly those fields; and
    any fields at all, each written between quotes with its quotes doubled,
    joined by commas, parse to exactly those fields. *)
Theorem parseCsvLine_reads_back :
  (∀ field fields,
     Forall plain (field :: fields) →
     parseCsvLine (String.concat "," (field :: fields)) = field :: fields)
  ∧ (∀ field fields,
       parseCsvLine (String.concat "," (csvQuote <$> field :: fields))
       = field :: fields).
Proof.
  split.
  - intros field fields Hplain. by apply (loop_fields []).
  - intros field fields. apply (loop_quoted_fields []).
Qed.

Lemma parseCsvLine_reads_back_witness :
  parseCsvLine (String.concat "," ["Alpha"; ""; "M 1"]) = ["Alpha"; ""; "M 1"].
Proof.
  destruct parseCsvLine_reads_back as [Hplain _].
  apply (Hplain "Alpha" [""; "M 1"]).
  repeat constructor.
Defined.

(** ** HTML text *)

Lemma escapeHtml_cons c value :
  escapeHtml (String c value) = escapeChar c +:+ escapeHtml value.
Proof. destruct c as [[] [] [] [] [] [] [] []]; reflexivity. Qed.

Lemma escapeChar_cases c :
  (isHtmlSpecial c = false ∧ escapeChar c = String c "")
  ∨ (c = "&"%char ∧ escapeChar c = "&amp;")
  ∨ (c = "<"%char ∧ escapeChar c = "&lt;")
  ∨ (c = ">"%char ∧ escapeChar c = "&gt;")
  ∨ (c = quote ∧ escapeChar c = "&quot;")
  ∨ (c = "'"%char ∧ escapeChar c = "&#39;").
Proof.
  destruct c as [[] [] [] [] [] [] [] []];
    first [ by left
          | by right; left
          | by right; right; left
          | by right; right; right; left
          | by right; right; right; right; left
          | by right; right; right; right; right ].
Qed.

Lemma escapeChar_markup c :
  Js.forallb (λ a, negb (isMarkup a)) (escapeChar c) = true.
Proof. destruct c as [[] [] [] [] [] [] [] []]; reflexivity. Qed.

Lemma escapeChar_prefix_free a b x y :
  escapeChar a +:+ x = escapeChar b +:+ y → a = b ∧ x = y.
Proof.
  destruct (escapeChar_cases a)
    as [[Ha ->]|[[-> ->]|[[-> ->]|[[-> ->]|[[-> ->]|[-> ->]]]]]];
  destruct (escapeChar_cases b)
    as [[Hb ->]|[[-> ->]|[[-> ->]|[[-> ->]|[[-> ->]|[-> ->]]]]]];
  rewrite ?sapp_cons, ?sapp_nil_l; intros H; simplify_eq; try done;
    by vm_compute in Ha || by vm_compute in Hb.
Qed.

Lemma escapeHtml_app a b : escapeHtml (a +:+ b) = escapeHtml a +:+ escapeHtml b.
Proof.
  induction a as [|c a IH]; [done|].
  by rewrite sapp_cons, !escapeHtml_cons, IH, sapp_assoc.
Qed.

Lemma escapeHtml_inj a b : escapeHtml a = escapeHtml b → a = b.
Proof.
  revert b. induction a as [|c a IH]; intros [|d b]; [done| | |].
  - rewrite escapeHtml_cons.
    destruct (escapeChar_cases d)
      as [[_ ->]|[[_ ->]|[[_ ->]|[[_ ->]|[[_ ->]|[_ ->]]]]]]; done.
  - rewrite escapeHtml_cons.
    destruct (escapeChar_cases c)
      as [[_ ->]|[[_ ->]|[[_ ->]|[[_ ->]|[[_ ->]|[_ ->]]]]]]; done.
  - rewrite !escapeHtml_cons. intros [-> H]%escapeChar_prefix_free.
    by rewrite (IH b H).
Qed.

(** X5: the text that [escapeHtml] returns contains none of the characters
    [<], [>], double quote and apostrophe, whatever the value; a value
    without these and without [&] is returned as it is; the escaping of a
    concatenation is the concatenation of the escapings; and two different
    values never have the same escaping. *)
Theorem escapeHtml_safe :
  (∀ value, Js.forallb (λ c, negb (isMarkup c)) (escapeHtml value) = true)
  ∧ (∀ value,
       Js.forallb (λ c, negb (isHtmlSpecial c)) value = true →
       escapeHtml value = value)
  ∧ (∀ a b, escapeHtml (a +:+ b) = escapeHtml a +:+ escapeHtml b)
  ∧ (∀ a b, escapeHtml a = escapeHtml b → a = b).
Proof.
  split_and!.
  - intros value. induction value as [|c value IH]; [done|].
    by rewrite escapeHtml_cons, sforallb_app, escapeChar_markup, IH.
  - intros value. induction value as [|c value IH]; [done|]. simpl.
    intros [Hc Hvalue]%andb_true_iff. rewrite escapeHtml_cons, IH by done.
    destruct (escapeChar_cases c)
      as [[_ ->]|[[-> _]|[[-> _]|[[-> _]|[[-> _]|[-> _]]]]]]; done.
  - apply escapeHtml_app.
  - apply escapeHtml_inj.
Qed.

Lemma escapeHtml_safe_witness :
  escapeHtml "Alpha 1 (beta)" = "Alpha 1 (beta)"
  ∧ "a<b" = "a<b".
Proof.
  destruct escapeHtml_safe as (_ & Hplain & _ & Hinj). split.
  - apply (Hplain "Alpha 1 (beta)"). reflexivity.
  - apply (Hinj "a<b" "a<b"). reflexivity.
Defined.

(** ** Distinct values *)

Lemma insertSorted_perm compare x sorted :
  insertSorted compare x sorted ≡ₚ x :: sorted.
Proof.
  induction sorted as [|y sorted IH]; simpl; [done|].
  destruct (compare x y <=? 0)%Z; [done|]. by rewrite IH, Permutation_swap.
Qed.

Lemma sortWith_perm compare xs : sortWith compare xs ≡ₚ xs.
Proof.
  induction xs as [|x xs IH]; simpl; [done|].
  by rewrite insertSorted_perm, IH.
Qed.

Lemma insertSorted_Sorted compare x sorted :
  (∀ a b, (0 < compare a b)%Z → (compare b a <= 0)%Z) →
  Sorted (λ a b, (compare a b <= 0)%Z) sorted →
  Sorted (λ a b, (compare a b <= 0)%Z) (insertSorted compare x sorted).
Proof.
  intros Hsign. induction 1 as [|y sorted Hsorted IH Hhd]; simpl.
  - by repeat constructor.
  - destruct (Z.leb_spec (compare x y) 0) as [Hle|Hgt].
    + by repeat constructor.
    + constructor; [done|].
      destruct Hhd as [|z sorted' Hz]; simpl.
      * constructor. by apply Hsign.
      * destruct (compare x z <=? 0)%Z; constructor; [by apply Hsign | done].
Qed.

Lemma dedupe_elem_of seen xs x :
  x ∈ dedupe seen xs ↔ x ∈ xs ∧ x ∉ seen.
Proof.
  revert seen. induction xs as [|y xs IH]; intros seen; simpl.
  - split; [by intros ?%elem_of_nil | by intros [?%elem_of_nil _]].
  - case_bool_decide as Hy.
    + rewrite IH, elem_of_cons. naive_solver.
    + rewrite !elem_of_cons, IH, not_elem_of_cons.
      destruct (decide (x = y)) as [->|]; naive_solver.
Qed.

Lemma dedupe_NoDup seen xs : NoDup (dedupe seen xs).
Proof.
  revert seen. induction xs as [|y xs IH]; intros seen; simpl.
  - constructor.
  - case_bool_decide; [done|]. constructor; [|done].
    rewrite dedupe_elem_of, not_elem_of_cons. naive_solver.
Qed.

Lemma dedupe_length seen xs : length (dedupe seen xs) ≤ length xs.
Proof.
  revert seen. induction xs as [|y xs IH]; intros seen; simpl; [done|].
  case_bool_decide; simpl; [specialize (IH seen) | specialize (IH (y :: seen))];
    lia.
Qed.

Lemma uniqueValues_length h localeCompare (rs : list (gmap string string)) name :
  length (uniqueValues localeCompare h rs name) ≤ length rs.
Proof.
  unfold uniqueValues. destruct (Js.isEmpty name); [simpl; lia|].
  rewrite sortWith_perm. etrans; [apply dedupe_length|].
  etrans; [apply List.filter_length_le|]. by rewrite length_fmap.
Qed.

(** X6: the values that [uniqueValues] returns for a column are exactly the
    trimmed values of the rows in that column that are not empty, each of
    them once, so there are at most as many as rows; for the empty key
    there are none. With a comparator whose sign flips when its arguments
    are swapped, as [localeCompare], they come in ascending order. *)
Theorem uniqueValues_distinct localeCompare h
    (rs : list (gmap string string)) name :
  (∀ x, x ∈ uniqueValues localeCompare h rs name
        ↔ name ≠ "" ∧ x ≠ ""
          ∧ ∃ row, row ∈ rs ∧ Js.trim (rowText h row name) = x)
  ∧ NoDup (uniqueValues localeCompare h rs name)
  ∧ length (uniqueValues localeCompare h rs name) ≤ length rs
  ∧ ((∀ a b, (0 < localeCompare a b)%Z → (localeCompare b a <= 0)%Z) →
     Sorted (λ a b, (localeCompare a b <= 0)%Z)
       (uniqueValues localeCompare h rs name)).
Proof.
  unfold uniqueValues. destruct name as [|c name']; simpl Js.isEmpty; cbv iota.
  { split_and!; [|constructor|simpl; lia|constructor].
    intros x. split; [by intros ?%elem_of_nil | by intros [? _]]. }
  set (name := String c name').
  set (values := List.filter _ _).
  split_and!.
  - intros x. rewrite sortWith_perm, dedupe_elem_of. unfold values.
    rewrite list_elem_of_In, filter_In, <-list_elem_of_In, list_elem_of_fmap.
    rewrite negb_true_iff, isEmpty_false. split.
    + intros [[(row & -> & Hrow) Hne] _]. split_and!; [done..|]. by exists row.
    + intros (_ & Hne & row & Hrow & <-). split_and!; [|done|by apply not_elem_of_nil].
      by exists row.
  - rewrite sortWith_perm. apply dedupe_NoDup.
  - apply (uniqueValues_length h localeCompare rs name).
  - intros Hsign. unfold sortWith.
    induction (dedupe [] values) as [|x xs IH]; simpl; [constructor|].
    by apply insertSorted_Sorted.
Qed.

Lemma uniqueValues_distinct_witness :
  Sorted (λ a b, (Example.byLength a b <= 0)%Z)
    (uniqueValues Example.byLength Example.host (stateRows idleState) "system").
Proof.
  apply (uniqueValues_distinct Example.byLength Example.host
           (stateRows idleState) "system").
  intros a b. unfold Example.byLength. lia.
Defined.


(** ** Facets refer to columns *)

Lemma forOf_Some {A B} (body : A → option B) xs y :
  forOf body xs = Some y → ∃ x, x ∈ xs ∧ body x = Some y.
Proof.
  induction xs as [|x xs IH]; simpl; [done|].
  destruct (body x) as [y'|] eqn:Hx.
  - intros [= <-]. exists x. split; [by left | done].
  - intros (x' & ? & ?)%IH. exists x'. split; [by right | done].
Qed.

Lemma findColumnKey_keyOrNone cols aliases :
  keyOrNone cols (findColumnKey cols aliases).
Proof.
  unfold findColumnKey, keyOrNone.
  destruct (forOf _ _) as [c|] eqn:Hexact.
  - right. apply forOf_Some in Hexact as (a & _ & [Hc _]%find_some).
    exists c. split; [by apply list_elem_of_In | done].
  - clear Hexact.
    destruct (forOf _ _) as [c|] eqn:Hpartial; [|by left].
    right. apply forOf_Some in Hpartial as (a & _ & [Hc _]%find_some).
    exists c. split; [by apply list_elem_of_In | done].
Qed.

Lemma keyAtOr_keyOrNone cols i rest :
  keyOrNone cols rest → keyOrNone cols (keyAtOr cols i rest).
Proof.
  intros Hrest. unfold keyAtOr. destruct (cols !! i) as [c|] eqn:Hc; [|done].
  unfold orElse. destruct (key c) eqn:Hkey; [done|]. right. exists c.
  split; [by eapply list_elem_of_lookup_2 | done].
Qed.

Lemma orElse_keyOrNone cols a b :
  keyOrNone cols a → keyOrNone cols b → keyOrNone cols (orElse a b).
Proof. intros Ha Hb. unfold orElse. by destruct a. Qed.

Lemma orElse_not_empty a b : b ≠ "" → orElse a b ≠ "".
Proof. intros Hb. unfold orElse. by destruct a. Qed.

Lemma determineFilterColumns_first cols c :
  cols !! 0 = Some c → key c ≠ "" →
  system (determineFilterColumns cols) ≠ ""
  ∧ milestone (determineFilterColumns cols) ≠ "".
Proof.
  intros Hc Hkey. unfold determineFilterColumns.
  cbn [system milestone developer manager].
  assert (keyAtOr cols 0 "" ≠ "") as Hfirst.
  { unfold keyAtOr. rewrite Hc. unfold orElse. by destruct (key c). }
  split; apply orElse_not_empty; [done|].
  unfold keyAtOr at 1. destruct (cols !! 1); [|done].
  by apply orElse_not_empty.
Qed.

(** X8: each of the four facets that [determineFilterColumns] returns is
    the key of one of the columns, or empty. When the first column has a
    key, the system and milestone facets are never empty. *)
Theorem determineFilterColumns_keys cols :
  (keyOrNone cols (system (determineFilterColumns cols))
   ∧ keyOrNone cols (milestone (determineFilterColumns cols))
   ∧ keyOrNone cols (developer (determineFilterColumns cols))
   ∧ keyOrNone cols (manager (determineFilterColumns cols)))
  ∧ (∀ c, cols !! 0 = Some c → key c ≠ "" →
          system (determineFilterColumns cols) ≠ ""
          ∧ milestone (determineFilterColumns cols) ≠ "").
Proof.
  split; [|apply determineFilterColumns_first].
  unfold determineFilterColumns. cbn [system milestone developer manager].
  split_and!; try apply findColumnKey_keyOrNone.
  - apply orElse_keyOrNone; [apply findColumnKey_keyOrNone|].
    apply keyAtOr_keyOrNone. by left.
  - apply orElse_keyOrNone; [apply findColumnKey_keyOrNone|].
    do 2 apply keyAtOr_keyOrNone. by left.
Qed.

Lemma determineFilterColumns_keys_witness :
  system (determineFilterColumns (imap csvColumn ["Id"; "Status"])) ≠ ""
  ∧ milestone (determineFilterColumns (imap csvColumn ["Id"; "Status"])) ≠ "".
Proof.
  destruct (determineFilterColumns_keys (imap csvColumn ["Id"; "Status"]))
    as [_ Hfirst].
  apply (Hfirst (csvColumn 0 "Id")); [reflexivity | by vm_compute].
Defined.

(** ** The page *)

Lemma cascade_wellFormed h w source t :
  fetchSheetMappedData h w source = Ok t →
  wellFormedTable (columns t) (rows t).
Proof.
  intros [[? H]|[[? H]|(? & ? & H)]]%cascade_origin.
  - by eapply mapPayload_wellFormed.
  - by eapply parseCsvText_wellFormed.
  - by eapply mapRecords_wellFormed.
Qed.

Lemma applyFilters_idemp h st :
  applyFilters h (applyFilters h st) = applyFilters h st.
Proof. reflexivity. Qed.

Lemma loadSheetData_Ok h w st parsed st' :
  loadSheetData h w st parsed = Ok st' →
  ∃ t,
    wellFormedTable (columns t) (rows t) ∧ columns t ≠ []
    ∧ st' = applyFilters h
              {| stateColumns := columns t;
                 stateRows := rows t;
                 filteredRows := filteredRows st;
                 filters := {| filterSystem := "";
                               filterMilestone := "";
                               search := search (filters st) |};
                 filterColumns := determineFilterColumns (columns t) |}.
Proof.
  unfold loadSheetData. intros (source & _ & Hrest)%bind_Ok.
  apply bind_Ok in Hrest as (t & Ht & Hrest). exists t.
  split; [by eapply cascade_wellFormed|].
  destruct (columns t) as [|c cs] eqn:Hcols; [done|].
  by injection Hrest as <-.
Qed.

Lemma init_resets h nativeMessage w page :
  init h nativeMessage w page = resetView page.
Proof. reflexivity. Qed.

Lemma consistent_cleared h (fs : Filters) page' :
  pageState page'
  = {| stateColumns := []; stateRows := []; filteredRows := [];
       filters := fs; filterColumns := noRoles |} →
  searchInput page' = search fs →
  consistent h page'.
Proof.
  intros Hst Hsearch. unfold consistent. rewrite Hst. simpl.
  split_and!; [done..| |done|done]. by split.
Qed.

Lemma consistent_withFilters h fs page page0 :
  consistent h page0 → pageState page = pageState page0 →
  searchInput page = search fs →
  consistent h (withFilters h fs page).
Proof.
  intros (_ & Hfacets & Htable & Hrows & _) Hstate Hsearch.
  unfold consistent, withFilters. simpl. rewrite Hstate. by split_and!.
Qed.

Lemma consistent_step h nativeMessage page event :
  consistent h page → consistent h (step h nativeMessage page event).
Proof.
  intros Hpage. destruct event as [w| |value|value|value|value]; simpl.
  - unfold handleSubmit.
    destruct (parseGoogleSheetLink h (sourceInput page)) as [parsed|e].
    + destruct (loadSheetData h w (pageState page) parsed) as [st'|e] eqn:Hload.
      * apply loadSheetData_Ok in Hload as (t & Htable & Hcols & ->).
        unfold consistent. simpl. split_and!; [done..|].
        by destruct Hpage as (_ & _ & _ & _ & ?).
      * eapply consistent_cleared; [reflexivity|].
        by destruct Hpage as (_ & _ & _ & _ & ?).
    + eapply consistent_cleared; [reflexivity|].
      by destruct Hpage as (_ & _ & _ & _ & ?).
  - by eapply consistent_cleared.
  - apply (consistent_withFilters _ _ _ page); [done..|].
    by destruct Hpage as (_ & _ & _ & _ & ?).
  - apply (consistent_withFilters _ _ _ page); [done..|].
    by destruct Hpage as (_ & _ & _ & _ & ?).
  - by apply (consistent_withFilters _ _ _ page).
  - done.
Qed.

(** X9: after [init], and after every sequence of submits, resets, menu
    changes and typing that follows it, whatever the network answers: the
    filtered rows are exactly the rows that the current filters let
    through, the facets are those of the columns shown, every column has a
    key, every row has a value for every column, there are no rows without
    columns, and the search box shows the search text that is applied. *)
Theorem page_consistent h nativeMessage w page events :
  consistent h (run h nativeMessage (init h nativeMessage w page) events).
Proof.
  rewrite init_resets. unfold run.
  assert (consistent h (resetView page)) as Hstart
    by (by eapply consistent_cleared).
  revert Hstart. generalize (resetView page).
  induction events as [|event events IH]; intros start Hstart; [done|].
  simpl. apply IH. by apply consistent_step.
Qed.



(** X12: [init] resets the view before it reads the saved link, and the
    reset removes that link: whatever the storage holds when the page
    opens, [init] leaves the page as [resetView] does, with empty storage,
    and submits nothing. *)
Theorem init_forgets_saved_link h nativeMessage w page :
  init h nativeMessage w page = resetView page
  ∧ storage (init h nativeMessage w page) = None
  ∧ stateColumns (pageState (init h nativeMessage w page)) = []
  ∧ feedback (init h nativeMessage w page)
    = "Paste a Google Sheets link and click View Data.".
Proof. by rewrite init_resets. Qed.


(** ** Links *)

Lemma span_spec p s :
  s = (Js.span p s).1 +:+ (Js.span p s).2
  ∧ Js.forallb p (Js.span p s).1 = true.
Proof.
  induction s as [|c s [IH1 IH2]]; [done|]. simpl.
  destruct (p c) eqn:Hc; [|done].
  destruct (Js.span p s) as [a b]. simpl in *.
  split; [by rewrite ?sapp_cons, <-IH1 | by rewrite Hc].
Qed.

Lemma span_prefix p a b :
  Js.forallb p a = true →
  String.length a ≤ String.length (Js.span p (a +:+ b)).1.
Proof.
  induction a as [|c a IH]; simpl; [lia|].
  intros [Hc Ha]%andb_true_iff. rewrite ?sapp_cons. simpl. rewrite Hc.
  specialize (IH Ha). destruct (Js.span p (a +:+ b)). simpl in *. lia.
Qed.

Lemma matchHere_Some lits n text run :
  matchHere lits n text = Some run →
  Js.forallb Js.isIdChar run = true ∧ n ≤ String.length run
  ∧ ∃ lit after, lit ∈ lits ∧ text = lit +:+ run +:+ after.
Proof.
  unfold matchHere. intros (lit & Hlit & Hbody)%forOf_Some.
  destruct (Js.stripPrefix lit text) as [rest|] eqn:Hrest; [|done].
  simpl in Hbody. apply stripPrefix_Some in Hrest as ->.
  destruct (Nat.leb_spec n (String.length (Js.span Js.isIdChar rest).1))
    as [Hlen|]; [|done].
  injection Hbody as <-. destruct (span_spec Js.isIdChar rest) as [Hsplit Hrun].
  split_and!; [done..|]. exists lit, (Js.span Js.isIdChar rest).2.
  by rewrite <-Hsplit.
Qed.

Lemma matchAfter_Some lits n text run :
  matchAfter lits n text = Some run →
  Js.forallb Js.isIdChar run = true ∧ n ≤ String.length run
  ∧ ∃ before lit after,
      lit ∈ lits ∧ text = before +:+ lit +:+ run +:+ after.
Proof.
  induction text as [|c text IH].
  - simpl. destruct (matchHere lits n "") as [r|] eqn:Hhere; [|done].
    intros [= ->]. apply matchHere_Some in Hhere as (? & ? & lit & after & ? & ?).
    split_and!; [done..|]. by exists "", lit, after.
  - simpl. destruct (matchHere lits n (String c text)) as [r|] eqn:Hhere.
    + intros [= ->].
      apply matchHere_Some in Hhere as (? & ? & lit & after & ? & ?).
      split_and!; [done..|]. by exists "", lit, after.
    + intros (? & ? & before & lit & after & ? & ->)%IH.
      split_and!; [done..|]. by exists (String c before), lit, after.
Qed.

Lemma matchAfter_cons lits n c text :
  matchAfter lits n (String c text)
  = match matchHere lits n (String c text) with
    | Some run => Some run
    | None => matchAfter lits n text
    end.
Proof. reflexivity. Qed.

Lemma matchAfter_complete lit n before run after :
  Js.forallb Js.isIdChar run = true → n ≤ String.length run →
  matchAfter [lit] n (before +:+ lit +:+ run +:+ after) ≠ None.
Proof.
  intros Hrun Hlen.
  assert (matchHere [lit] n (lit +:+ run +:+ after) ≠ None) as Hhere.
  { unfold matchHere. cbn [forOf]. rewrite stripPrefix_app. cbn [mbind option_bind].
    pose proof (span_prefix Js.isIdChar run after Hrun) as Hspan.
    destruct (Nat.leb_spec n (String.length (Js.span Js.isIdChar (run +:+ after)).1));
      [done | lia]. }
  induction before as [|c before IH].
  - rewrite sapp_nil_l.
    destruct (matchHere [lit] n (lit +:+ run +:+ after)) as [r|] eqn:E; [|done].
    by rewrite (matchAfter_here _ _ _ r E).
  - clear Hhere. rewrite sapp_cons, matchAfter_cons.
    by destruct (matchHere [lit] n _).
Qed.

(** X13: what [extractSheetIdFromRaw] returns is empty, or is a text of at
    least 20 letters, digits, hyphens and underscores that stands in the
    input right behind one of the markers [/spreadsheets/d/], [?id=],
    [&id=], [?key=], [&key=], [/file/d/]. It is not empty when the input
    has such a text of at least 20 characters behind [/spreadsheets/d/]. *)
Theorem extractSheetIdFromRaw_identifier :
  (∀ rawValue,
     extractSheetIdFromRaw rawValue = ""
     ∨ (Js.forallb Js.isIdChar (extractSheetIdFromRaw rawValue) = true
        ∧ 20 ≤ String.length (extractSheetIdFromRaw rawValue)
        ∧ ∃ before marker after,
            marker ∈ idMarkers
            ∧ rawValue = before +:+ marker
                           +:+ extractSheetIdFromRaw rawValue +:+ after))
  ∧ (∀ before id after,
       Js.forallb Js.isIdChar id = true → 20 ≤ String.length id →
       extractSheetIdFromRaw (before +:+ "/spreadsheets/d/" +:+ id +:+ after)
       ≠ "").
Proof.
  split.
  - intros rawValue. unfold extractSheetIdFromRaw.
    destruct (forOf _ _) as [id|] eqn:Hfound; [|by left]. right. simpl.
    apply forOf_Some in Hfound as (lits & Hlits & Hmatch).
    apply matchAfter_Some in Hmatch
      as (Hid & Hlen & before & lit & after & Hlit & Htext).
    split_and!; [done..|]. exists before, lit, after. split; [|done].
    unfold idMarkers.
    repeat (apply elem_of_cons in Hlits as [->|Hlits]);
      [..|by apply elem_of_nil in Hlits];
      repeat (apply elem_of_cons in Hlit as [->|Hlit]);
      try (by apply elem_of_nil in Hlit);
      repeat (first [by left | right]).
  - intros before id after Hid Hlen. unfold extractSheetIdFromRaw. cbn [forOf].
    pose proof (matchAfter_complete "/spreadsheets/d/" 20 before id after
                  Hid Hlen) as Hsome.
    destruct (matchAfter ["/spreadsheets/d/"] 20 _) as [run|] eqn:E; [|done].
    apply matchAfter_Some in E as (_ & Hrun & _). simpl.
    destruct run; [simpl in Hrun; lia | done].
Qed.

Lemma extractSheetIdFromRaw_identifier_witness :
  extractSheetIdFromRaw
    ("see https://x.test" +:+ "/spreadsheets/d/" +:+ "1aBcDeFgHiJkLmNoPqRsTuVwXyZ"
       +:+ "/edit")
  ≠ "".
Proof.
  destruct extractSheetIdFromRaw_identifier as [_ Hfound].
  apply (Hfound "see https://x.test" "1aBcDeFgHiJkLmNoPqRsTuVwXyZ" "/edit");
    [reflexivity | vm_compute; lia].
Defined.





(** ** Wrapped responses *)

Lemma indexOf_None c s : without c s → indexOf c s = None.
Proof.
  unfold without. induction s as [|a s IH]; [done|]. simpl.
  intros [Ha Hs]%andb_true_iff. apply negb_true_iff in Ha.
  by rewrite Ha, IH.
Qed.

Lemma lastIndexOf_None c s : without c s → lastIndexOf c s = None.
Proof.
  unfold without. induction s as [|a s IH]; [done|]. simpl.
  intros [Ha Hs]%andb_true_iff. apply negb_true_iff in Ha.
  by rewrite IH, Ha.
Qed.

Lemma indexOf_app c before rest :
  without c before →
  indexOf c (before +:+ String c rest) = Some (String.length before).
Proof.
  unfold without. induction before as [|a before IH].
  - intros _. rewrite ?sapp_nil_l. simpl. by rewrite Ascii.eqb_refl.
  - simpl. intros [Ha Hs]%andb_true_iff. apply negb_true_iff in Ha.
    rewrite ?sapp_cons. simpl. by rewrite Ha, IH.
Qed.

Lemma lastIndexOf_app c before after :
  without c after →
  lastIndexOf c (before +:+ String c after) = Some (String.length before).
Proof.
  intros Hafter. induction before as [|a before IH].
  - rewrite ?sapp_nil_l. simpl.
    by rewrite lastIndexOf_None, Ascii.eqb_refl.
  - rewrite ?sapp_cons. simpl. by rewrite IH.
Qed.

Lemma substring_prefix b c :
  String.substring 0 (String.length b) (b +:+ c) = b.
Proof.
  induction b as [|a b IH]; [by destruct c|].
  rewrite ?sapp_cons. simpl. by rewrite IH.
Qed.

Lemma substring_app a b c :
  String.substring (String.length a) (String.length b) (a +:+ b +:+ c) = b.
Proof.
  induction a as [|x a IH]; [rewrite ?sapp_nil_l; apply substring_prefix|].
  rewrite ?sapp_cons. simpl. apply IH.
Qed.

Lemma without_app c a b : without c a → without c b → without c (a +:+ b).
Proof. unfold without. intros Ha Hb. by rewrite sforallb_app, Ha, Hb. Qed.

Lemma lastIndexOf_app_without c a b :
  without c b → lastIndexOf c (a +:+ b) = lastIndexOf c a.
Proof.
  intros Hb. induction a as [|x a IH].
  - rewrite ?sapp_nil_l. by apply lastIndexOf_None.
  - rewrite ?sapp_cons. simpl. by rewrite IH.
Qed.

Lemma lastIndexOf_lt c s i : lastIndexOf c s = Some i → i < String.length s.
Proof.
  revert i. induction s as [|x s IH]; intros i; simpl; [done|].
  destruct (lastIndexOf c s) as [j|].
  - intros [= <-]. specialize (IH j eq_refl). lia.
  - destruct (Ascii.eqb x c); intros [= <-]. lia.
Qed.

(** X15: [parseGvizResponse] unwraps the response: when the text is some
    prefix without [{], then [{ body }], then some suffix without [}], it
    parses exactly [{ body }], whatever the body is. A text without [{], and
    a text with no [}] behind its first [{], is an invalid response. *)
Theorem parseGvizResponse_unwraps h :
  (∀ before body after,
     without "{" before → without "}" after →
     parseGvizResponse h
       (before +:+ String "{" (body +:+ String "}" after))
     = JSON_parse h (String "{" (body +:+ String "}" "")))
  ∧ (∀ text, without "{" text → parseGvizResponse h text = Throw invalidResponse)
  ∧ (∀ before after,
       without "{" before → without "}" after →
       parseGvizResponse h (before +:+ String "{" after)
       = Throw invalidResponse).
Proof.
  split_and!.
  - intros before body after Hbefore Hafter. unfold parseGvizResponse.
    rewrite indexOf_app by done.
    replace (before +:+ String "{" (body +:+ String "}" after))
      with ((before +:+ String "{" body) +:+ String "}" after)
      by (by rewrite sapp_assoc, sapp_cons).
    rewrite lastIndexOf_app by done.
    rewrite slength_app. simpl String.length.
    destruct (Nat.leb_spec (String.length before + S (String.length body))
                (String.length before)) as [Hle|_]; [lia|].
    f_equal.
    replace (String.length before + S (String.length body) + 1
             - String.length before)
      with (String.length (String "{" (body +:+ String "}" "")))
      by (simpl; rewrite slength_app; simpl; lia).
    replace ((before +:+ String "{" body) +:+ String "}" after)
      with (before +:+ String "{" (body +:+ String "}" "") +:+ after)
      by (by rewrite ?sapp_assoc, ?sapp_cons, ?sapp_assoc, ?sapp_cons,
               ?sapp_nil_l).
    apply substring_app.
  - intros text Htext. unfold parseGvizResponse.
    by rewrite indexOf_None.
  - intros before after Hbefore Hafter. unfold parseGvizResponse.
    rewrite indexOf_app by done.
    rewrite lastIndexOf_app_without by (unfold without in *; simpl; done).
    destruct (lastIndexOf "}" before) as [i|] eqn:Hi; [|done].
    apply lastIndexOf_lt in Hi.
    by destruct (Nat.leb_spec i (String.length before)); [|lia].
Qed.

Lemma parseGvizResponse_unwraps_witness :
  parseGvizResponse Example.host
    ("/*O_o*/ setResponse(" +:+ String "{" ("x:{}" +:+ String "}" ");"))
  = JSON_parse Example.host (String "{" ("x:{}" +:+ String "}" ""))
  ∧ parseGvizResponse Example.host "<html>Sign in</html>"
    = Throw invalidResponse.
Proof.
  destruct (parseGvizResponse_unwraps Example.host) as (Hwrap & Hnone & _).
  split.
  - apply (Hwrap "/*O_o*/ setResponse(" "x:{}" ");"); reflexivity.
  - apply (Hnone "<html>Sign in</html>"). reflexivity.
Defined.

(** ** Searching *)




















(** ** Tab selectors *)






(** ** Cells of the CSV table *)

(** X18: the cells of [parseCsvText]. The column at position [j] is made
    from the header field at [j]; the rows are the data lines in their
    order; and the row of a data line holds, under the key of a column, the
    trimmed field of the last column that has this key (the empty text when
    the line has no such field). So a column whose key no later column
    shares shows its own field, and of columns that share a key only the
    last one is kept. *)
Theorem parseCsvText_cells text t :
  parseCsvText text = Ok t →
  ∃ header data,
    csvLines text = header :: data
    ∧ (∀ j, columns t !! j = csvColumn j <$> parseCsvLine header !! j)
    ∧ length (rows t) = length data
    ∧ ∀ r line j c,
        data !! r = Some line → columns t !! j = Some c →
        ∃ row last c',
          rows t !! r = Some row
          ∧ j ≤ last ∧ columns t !! last = Some c' ∧ key c' = key c
          ∧ (∀ j' c'', last < j' → columns t !! j' = Some c'' →
                       key c'' ≠ key c)
          ∧ row !! key c
            = Some (Js.trim (default "" (parseCsvLine line !! last))).
Proof.
  intros (header & data & Hlines & Hcols & Hrows)%parseCsvText_Ok.
  exists header, data. split_and!; [done| |by symmetry; eapply Forall2_length|].
  - intros j. rewrite Hcols. apply list_lookup_imap.
  - intros r line j c Hline Hc.
    destruct (Forall2_lookup_l _ _ _ _ _ Hrows Hline) as (row & Hrow & Hcsv).
    exists row. unfold csvRow in Hcsv.
    destruct (forEachColumn_lookup _ _ _ _ _ (key c) Hcsv)
      as [[_ Hnone]|(last & c' & v & Hlast & Hkey & [= <-] & Hvalue & Hlater)].
    { exfalso. eapply Hnone; [|done]. by eapply list_elem_of_lookup_2. }
    exists last, c'. split_and!; try done.
    destruct (decide (j ≤ last)) as [|Hlt]; [done|].
    exfalso. apply (Hlater j c); [lia | done | done].
Qed.

Lemma parseCsvText_cells_witness :
  ∃ t header data,
    parseCsvText ("Name,name" +:+ String LF "1,2") = Ok t
    ∧ header :: data = ["Name,name"; "1,2"]
    ∧ length (rows t) = length data.
Proof.
  destruct (parseCsvText ("Name,name" +:+ String LF "1,2")) as [t|] eqn:Ht;
    [|by vm_compute in Ht].
  destruct (parseCsvText_cells _ t Ht) as (header & data & Hlines & _ & Hlen & _).
  exists t, header, data. split_and!; [done| |done].
  by vm_compute in Hlines.
Defined.
